(** * Format sniffing and dimension extraction of the image-converter worker

    A shallow embedding of the pure routines of [src/index.ts]:
    [isAnimatedSVG], [isAnimatedGIF] (both historical variants),
    [getGIFDimensions] and the regular-expression [getSVGDimensions].

    The file [src/index.ts] holds several revisions of the worker.  The
    FFmpeg-based revisions share [getGIFDimensions], the simple
    first-marker [isAnimatedGIF] and the regex [getSVGDimensions]; they are
    embedded in module [Ffmpeg].  The upload-API revision holds the
    block-aware [isAnimatedGIF]; it is embedded in module [Cloudinary].
    The first revision's [getSVGDimensions] goes through [DOMParser] and
    is not embedded. *)

From Stdlib Require Import ZArith List Lia Bool Strings.Byte Floats.
From Stdlib Require Import Sorting.Permutation.
From Stdlib Require Strings.String Strings.Ascii.
From Stdlib Require Numbers.DecimalString.
Import String.StringSyntax.
Delimit Scope string_scope with string.
From Equations Require Import Equations.
Import ListNotations.

Local Open Scope Z_scope.

(** ** The ECMAScript fragment the routines rely on *)

Module JS.

(** A [Uint8Array] over an [ArrayBuffer]: a finite sequence of bytes. *)
Definition Uint8Array := list byte.

(** [view[i]]: the element as a number, or [undefined] ([None]) when [i]
    is not a valid index.  Typed-array reads never throw. *)
Definition get (view : Uint8Array) (i : nat) : option Z :=
  option_map (fun b => Z.of_N (Byte.to_N b)) (nth_error view i).

(** [x === c] and [x !== c] for a numeric literal [c]:
    [undefined] is strictly equal to no number. *)
Definition strictEq (x : option Z) (c : Z) : bool :=
  match x with
  | Some v => v =? c
  | None => false
  end.

Definition strictNe (x : option Z) (c : Z) : bool := negb (strictEq x c).

(** ToInt32 on an integral number: wrap-around to 32 signed bits. *)
Definition wrap32 (z : Z) : Z := (z + 2 ^ 31) mod 2 ^ 32 - 2 ^ 31.

(** ToInt32 of a value read from a typed array: [undefined] becomes 0. *)
Definition toInt32 (x : option Z) : Z :=
  match x with
  | Some v => wrap32 v
  | None => 0
  end.

(** [a << n] and [a | b] on values already converted by ToInt32. *)
Definition shl (a n : Z) : Z := wrap32 (Z.shiftl a (n mod 32)).
Definition bor (a b : Z) : Z := wrap32 (Z.lor a b).

(** A string is its sequence of UTF-16 code units. *)
Definition jsstring := list N.

(** The code units of an ASCII literal. *)
Definition lit (s : String.string) : jsstring :=
  List.map Ascii.N_of_ascii (String.list_ascii_of_string s).
Arguments lit s%_string.

Definition dquote : N := 34%N.
Definition equals : N := 61%N.
Definition space : N := 32%N.

(** [s.startsWith(p)], the test at the heart of [includes]. *)
Fixpoint startsWith (p s : jsstring) : bool :=
  match p, s with
  | [], _ => true
  | _ :: _, [] => false
  | a :: p', b :: s' => (a =? b)%N && startsWith p' s'
  end.

(** [s.includes(p)]: [p] occurs at some offset of [s]. *)
Fixpoint includes (s p : jsstring) : bool :=
  startsWith p s ||
  match s with
  | [] => false
  | _ :: s' => includes s' p
  end.

(** [s.split(sep)] for a one-unit separator: the pieces between the
    separators, empty pieces included; never an empty array. *)
Fixpoint split (sep : N) (s : jsstring) : list jsstring :=
  match s with
  | [] => [[]]
  | c :: s' =>
      if (c =? sep)%N then [] :: split sep s'
      else match split sep s' with
           | t :: ts => (c :: t) :: ts
           | [] => [[c]]
           end
  end.

(** The remainder of [s] after the prefix [p], when [s] starts with [p]. *)
Fixpoint stripPrefix (p s : jsstring) : option jsstring :=
  match p, s with
  | [], _ => Some s
  | _ :: _, [] => None
  | a :: p', b :: s' => if (a =? b)%N then stripPrefix p' s' else None
  end.

(** The longest prefix free of double quotes, and what follows it: what
    the greedy negated class of the pattern consumes. *)
Fixpoint spanNonQuote (s : jsstring) : jsstring * jsstring :=
  match s with
  | [] => ([], [])
  | c :: s' =>
      if (c =? dquote)%N then ([], s)
      else let (v, r) := spanNonQuote s' in (c :: v, r)
  end.

(** The regular expression of [getSVGDimensions] for the attribute
    [name], tried at offset 0: the literal [name], an equals sign, a
    double quote, a captured non-empty run of units other than the double
    quote, and a closing double quote.  The result is the capture group
    when the expression matches there.  The greedy class stops at the
    first double quote, so giving units back never helps. *)
Definition matchAt (name s : jsstring) : option jsstring :=
  match stripPrefix (name ++ [equals; dquote]) s with
  | None => None
  | Some rest =>
      match spanNonQuote rest with
      | (c :: v, _ :: _) => Some (c :: v)
      | _ => None
      end
  end.

(** [s.match] with that expression: the capture group of the leftmost
    match, or [None] for [null]. *)
Fixpoint matchAttr (name s : jsstring) : option jsstring :=
  match matchAt name s with
  | Some v => Some v
  | None =>
      match s with
      | [] => None
      | _ :: s' => matchAttr name s'
      end
  end.

(** The values a [width] or [height] variable of [getSVGDimensions] can
    hold at run time: a Number (an IEEE 754 double) or [undefined]. *)
Inductive jsvalue : Type :=
| JUndefined
| JNumber (x : float).

(** Element [i] of an array of numbers, as array destructuring reads it. *)
Definition element (a : list float) (i : nat) : jsvalue :=
  match nth_error a i with
  | Some x => JNumber x
  | None => JUndefined
  end.

(** How a call completes: with a value, or by throwing. *)
Inductive completion (E A : Type) : Type :=
| Normal (a : A)
| Throw (e : E).
Arguments Normal {E A} a.
Arguments Throw {E A} e.

End JS.

Import JS.

(** The [Dimensions] interface; [num] is the representation of its number
    fields (32-bit integer results for GIF, run-time values for SVG). *)
Record Dimensions (num : Type) : Type :=
  { width : num; height : num }.
Arguments width {num} _.
Arguments height {num} _.

(** Modelled from the spec: the error taxonomy of its section 7.  The source
    declares no error type of its own; the routines embedded here contain no
    [throw]. *)
Inductive CoreError : Type :=
| InvalidFormat
| MalformedInput
| AmbiguousParse.

(** The two-byte Graphic Control Extension introducer tested by both scans:
    [view[pos] === 0x21 && view[pos + 1] === 0xF9]. *)
Definition isGCE (view : Uint8Array) (pos : nat) : bool :=
  strictEq (get view pos) 0x21 && strictEq (get view (pos + 1)) 0xF9.

(** ** The FFmpeg-based revisions *)

Module Ffmpeg.

(** [isAnimatedSVG], lines 94-98 and 512-516. *)
Definition animationElements : list jsstring :=
  [lit "<animate"; lit "<animateTransform"; lit "<animateMotion"; lit "<set"].

Definition isAnimatedSVG (svgText : jsstring) : bool :=
  existsb (fun element => includes svgText element) animationElements.

(** [getGIFDimensions], lines 118-124 and 393-399. *)
Definition getGIFDimensions (buffer : Uint8Array) : Dimensions Z :=
  let view := buffer in
  let width := bor (toInt32 (get view 6)) (shl (toInt32 (get view 7)) 8) in
  let height := bor (toInt32 (get view 8)) (shl (toInt32 (get view 9)) 8) in
  {| width := width; height := height |}.

(** The [while] loop of the simple [isAnimatedGIF] (lines 179-190 and
    518-528), from position [pos]. *)
Equations? scan (view : Uint8Array) (pos : nat) : bool
  by wf (length view - pos)%nat lt :=
  scan view pos with lt_dec pos (length view) => {
    | right _ := false
    | left _ :=
        if isGCE view pos then true
        else scan view (pos + 1) }.
Proof. lia. Defined.

Definition isAnimatedGIF (buffer : Uint8Array) : bool :=
  let view := buffer in
  scan view 13.

Section SVGDimensions.

(** The built-ins [Number] (applied to a string) and [parseFloat]. *)
Variable Number : jsstring -> float.
Variable parseFloat : jsstring -> float.

(** [getSVGDimensions], lines 365-391. *)
Definition getSVGDimensions (svgText : jsstring) : Dimensions jsvalue :=
  let width := JNumber 800 in
  let height := JNumber 600 in
  let viewBoxMatch := matchAttr (lit "viewBox") svgText in
  match viewBoxMatch with
  | Some viewBox =>
      let a := List.map Number (split space viewBox) in
      let w := element a 2 in
      let h := element a 3 in
      {| width := w; height := h |}
  | None =>
      let widthMatch := matchAttr (lit "width") svgText in
      let heightMatch := matchAttr (lit "height") svgText in
      let width :=
        match widthMatch with
        | Some m => JNumber (parseFloat m)
        | None => width
        end in
      let height :=
        match heightMatch with
        | Some m => JNumber (parseFloat m)
        | None => height
        end in
      {| width := width; height := height |}
  end.

End SVGDimensions.

End Ffmpeg.

(** ** The upload-API revision *)

Module Cloudinary.

(** [isAnimatedSVG], lines 727-735. *)
Definition animationElements : list jsstring :=
  [lit "<animate"; lit "<animateMotion"; lit "<animateTransform"; lit "<set"].

Definition isAnimatedSVG (svgContent : jsstring) : bool :=
  existsb (fun element => includes svgContent element) animationElements.

(** The header test: [true] when the buffer does not start with the
    signature GIF. *)
Definition badHeader (view : Uint8Array) : bool :=
  strictNe (get view 0) 0x47 || strictNe (get view 1) 0x49
  || strictNe (get view 2) 0x46.

(** The [while] loop of the block-aware [isAnimatedGIF] (lines 737-762),
    entered with [frames] markers counted so far and the scan at [pos]. *)
Equations? scan (view : Uint8Array) (frames pos : nat) : bool
  by wf (length view - pos)%nat lt :=
  scan view frames pos with lt_dec pos (length view) => {
    | right _ := false
    | left _ :=
        if isGCE view pos then
          if (1 <? frames + 1)%nat then true
          else scan view (frames + 1) (pos + 8)
        else if strictEq (get view pos) 0x2C then scan view frames (pos + 11)
        else scan view frames (pos + 1) }.
Proof. all: lia. Defined.

Definition isAnimatedGIF (buffer : Uint8Array) : bool :=
  let view := buffer in
  let frames := 0%nat in
  let pos := 0%nat in
  if badHeader view then false
  else
    let pos := (pos + 13)%nat in
    scan view frames pos.

End Cloudinary.

(** The dimension extractor as its callers see it: a call that completes
    normally on every buffer, since the body has no [throw] and typed-array
    reads do not fault. *)
Definition extractGIF (buffer : Uint8Array) : completion CoreError (Dimensions Z) :=
  Normal (Ffmpeg.getGIFDimensions buffer).

(** The number a read contributes to an integer operation: the byte, or 0
    for [undefined]. *)
Definition byteOrZero (view : Uint8Array) (i : nat) : Z :=
  match get view i with
  | Some v => v
  | None => 0
  end.


(** The little-endian unsigned 16-bit integer formed from two bytes. *)
Definition u16le (lo hi : byte) : Z :=
  Z.of_N (Byte.to_N lo) + 256 * Z.of_N (Byte.to_N hi).

(** ** Vocabulary of the GIF scan properties *)

(** The buffer starts with the 3-byte signature GIF. *)
Definition hasSignature (view : Uint8Array) : Prop :=
  nth_error view 0 = Some x47 /\ nth_error view 1 = Some x49
  /\ nth_error view 2 = Some x46.

(** The byte 0x2C, the Image Descriptor introducer, sits at [pos]. *)
Definition isImageDescriptor (view : Uint8Array) (pos : nat) : bool :=
  strictEq (get view pos) 0x2C.

(** The step of the block-aware scan as the specification words it: 8 bytes
    after a Graphic Control Extension marker, 11 bytes after an Image
    Descriptor marker, 1 byte otherwise. *)
Definition advance (view : Uint8Array) (pos : nat) : nat :=
  if isGCE view pos then (pos + 8)%nat
  else if isImageDescriptor view pos then (pos + 11)%nat
  else (pos + 1)%nat.

(** [Reach view a b]: a scan standing at [a] arrives at [b] by repeated
    steps, each taken from a position inside the buffer. *)
Inductive Reach (view : Uint8Array) : nat -> nat -> Prop :=
| Reach_here (a : nat) : Reach view a a
| Reach_step (a b : nat) :
    (a < length view)%nat -> Reach view (advance view a) b -> Reach view a b.

(** The number of Graphic Control Extension markers the buffer contains
    after its 13-byte header. *)
Definition gceCount (view : Uint8Array) : nat :=
  length (filter (isGCE view) (seq 13 (length view - 13))).

(** No marker starts within the 10 bytes that follow a byte 0x2C placed
    after the header: no step of 11 jumps over a marker. *)
Definition descriptorsClear (view : Uint8Array) : Prop :=
  forall q m : nat,
    (13 <= q)%nat -> isImageDescriptor view q = true -> isGCE view m = true ->
    ~ (q < m <= q + 10)%nat.

(** A marker whose 8-byte block runs past the end of the buffer. *)
Definition truncatedGCE (view : Uint8Array) (p : nat) : Prop :=
  isGCE view p = true /\ (length view < p + 8)%nat.

(** ** Sample buffers *)

(** The 13-byte header and logical screen descriptor of a 5 by 1 GIF89a
    without a global colour table. *)
Definition header5x1 : Uint8Array :=
  [x47; x49; x46; x38; x39; x61; x05; x00; x01; x00; x00; x00; x00].

(** A Graphic Control Extension block: introducer, label, block size 4,
    flags, delay 10, transparent index, terminator. *)
Definition gceBlock : Uint8Array :=
  [x21; xf9; x04; x00; x0a; x00; x00; x00].

(** A 5 by 1 frame: image descriptor, LZW minimum code size 2, one data
    sub-block of 3 bytes (codes clear, 1, 0, 6, 2, end: the pixels
    1 0 1 0 2) whose second byte is 0x2C, and the block terminator. *)
Definition frame5x1 : Uint8Array :=
  [x2c; x00; x00; x00; x00; x05; x00; x01; x00; x00]
    ++ [x02; x03; x0c; x2c; x05; x00].

(** A two-frame GIF: each frame has its own Graphic Control Extension. *)
Definition twoFrameGIF : Uint8Array :=
  header5x1 ++ gceBlock ++ frame5x1 ++ gceBlock ++ frame5x1 ++ [x3b].

(** A single-frame GIF with one Graphic Control Extension. *)
Definition oneFrameGIF : Uint8Array :=
  header5x1 ++ gceBlock ++ frame5x1 ++ [x3b].

(** A buffer cut right after the introducer of its second extension. *)
Definition cutInSecondGCE : Uint8Array :=
  header5x1 ++ gceBlock ++ [x21; xf9].

(** A buffer cut right after the introducer of its first extension. *)
Definition cutInFirstGCE : Uint8Array :=
  header5x1 ++ [x21; xf9].

(** A 1 by 1 frame whose pixel data holds no byte 0x2C. *)
Definition frame1x1 : Uint8Array :=
  [x2c; x00; x00; x00; x00; x01; x00; x01; x00; x00]
    ++ [x02; x02; x4c; x01; x00].

(** A two-frame GIF on which no step of 11 jumps over a marker. *)
Definition blinkingGIF : Uint8Array :=
  header5x1 ++ gceBlock ++ frame1x1 ++ gceBlock ++ frame1x1 ++ [x3b].

(** A decision procedure for [descriptorsClear]. *)
Definition descriptorsClearb (view : Uint8Array) : bool :=
  forallb
    (fun q => negb (isImageDescriptor view q)
              || forallb (fun m => negb (isGCE view m)) (seq (q + 1) 10))
    (seq 13 (length view - 13)).

(** ** Vocabulary of the SVG properties *)

(** [p] occurs in [s] as a substring. *)
Definition Substring (p s : jsstring) : Prop :=
  exists pre post, s = pre ++ p ++ post.

(** The four literal substrings the specification lists. *)
Definition smilTags : list jsstring :=
  [lit "<animate"; lit "<animateTransform"; lit "<animateMotion"; lit "<set"].

(** The attribute pattern for [name] matches at the very start of [s] and
    captures [v]: [s] is [name], an equals sign, a double quote, the
    non-empty quote-free [v], a double quote, and anything. *)
Definition MatchesAt (name s v : jsstring) : Prop :=
  exists post, s = (name ++ [equals; dquote]) ++ v ++ dquote :: post
               /\ v <> [] /\ ~ In dquote v.

(** [v] is captured by the leftmost match of the pattern in [s]. *)
Definition FirstMatch (name s v : jsstring) : Prop :=
  exists pre suf,
    s = pre ++ suf /\ MatchesAt name suf v
    /\ forall pre1 pre2 v', pre = pre1 ++ pre2 -> pre2 <> [] ->
                            ~ MatchesAt name (pre2 ++ suf) v'.

(** The pattern matches nowhere in [s]. *)
Definition NoMatch (name s : jsstring) : Prop :=
  forall pre suf v, s = pre ++ suf -> ~ MatchesAt name suf v.

(** The pieces of a [split], put back together. *)
Fixpoint join (sep : N) (pieces : list jsstring) : jsstring :=
  match pieces with
  | [] => []
  | [t] => t
  | t :: ts => t ++ sep :: join sep ts
  end.

(** Piece [i] of a viewBox value, converted: what [width] or [height]
    receives. *)
Definition piece (Number : jsstring -> float) (pieces : list jsstring)
  (i : nat) : jsvalue :=
  match nth_error pieces i with
  | Some t => JNumber (Number t)
  | None => JUndefined
  end.

(** White space as the specification's tokens understand it: space, tab,
    line feed, form feed, carriage return. *)
Definition isWhitespace (c : N) : bool :=
  ((c =? 32) || (c =? 9) || (c =? 10) || (c =? 12) || (c =? 13))%N.

(** The specification's reading of a viewBox value: its maximal runs of
    units that are not white space. *)
Fixpoint wsTokensFrom (cur : jsstring) (s : jsstring) : list jsstring :=
  match s with
  | [] => match cur with [] => [] | _ => [rev cur] end
  | c :: s' =>
      if isWhitespace c then
        match cur with
        | [] => wsTokensFrom [] s'
        | _ => rev cur :: wsTokensFrom [] s'
        end
      else wsTokensFrom (c :: cur) s'
  end.

Definition wsTokens (s : jsstring) : list jsstring := wsTokensFrom [] s.

(** The SVG extractor as its callers see it: the body has no [throw], and
    [match], [split], [map], [Number] and [parseFloat] do not throw on
    strings. *)
Definition extractSVG (Number parseFloat : jsstring -> float)
  (svgText : jsstring) : completion CoreError (Dimensions jsvalue) :=
  Normal (Ffmpeg.getSVGDimensions Number parseFloat svgText).

(** A value is a positive number. *)
Definition isPositive (v : jsvalue) : bool :=
  match v with
  | JNumber x => PrimFloat.ltb 0 x
  | JUndefined => false
  end.

(** A stand-in for the built-ins on non-empty strings of decimal digits,
    where [Number] and [parseFloat] agree and give the number the digits
    denote (exactly, for the small values used here).  On every other string
    its value, NaN, is a placeholder; it only instantiates the built-ins in
    closed examples. *)
Fixpoint digitsFrom (acc : float) (s : jsstring) : float :=
  match s with
  | [] => acc
  | c :: s' =>
      if ((48 <=? c) && (c <=? 57))%N
      then digitsFrom (acc * 10 + PrimFloat.of_uint63 (Uint63.of_Z (Z.of_N c - 48))) s'
      else PrimFloat.nan
  end.

Definition digitsNumber (s : jsstring) : float :=
  match s with
  | [] => PrimFloat.nan
  | _ => digitsFrom 0 s
  end.

(** Sample SVG texts. *)
Definition quoted (s : jsstring) : jsstring := dquote :: s ++ [dquote].

Definition svgViewBox : jsstring :=
  lit "<svg viewBox=" ++ quoted (lit "0 0 120 80") ++ lit ">".

Definition svgWidthHeight : jsstring :=
  lit "<svg width=" ++ quoted (lit "50") ++ lit " height="
    ++ quoted (lit "40") ++ lit ">".

Definition svgBare : jsstring := lit "<svg>".

Definition tab : N := 9%N.

(** A viewBox whose four numbers are separated by tabs. *)
Definition tabbedValue : jsstring :=
  lit "0" ++ [tab] ++ lit "0" ++ [tab] ++ lit "120" ++ [tab] ++ lit "80".

Definition svgTabbedViewBox : jsstring :=
  lit "<svg viewBox=" ++ quoted tabbedValue ++ lit ">".

(** A GIF header announcing a 0 by 0 logical screen. *)
Definition zeroSizedGIF : Uint8Array :=
  [x47; x49; x46; x38; x39; x61; x00; x00; x00; x00; x00; x00; x00; x3b].

(** ** More of the ECMAScript fragment *)

Module JSMore.

Definition dot : N := 46%N.
Definition slash : N := 47%N.
Definition ampersand : N := 38%N.
Definition digitZero : N := 48%N.

(** Strict equality of two strings: the same code units. *)
Fixpoint strEq (a b : jsstring) : bool :=
  match a, b with
  | [], [] => true
  | x :: a', y :: b' => (x =? y)%N && strEq a' b'
  | _, _ => false
  end.

(** [a < b] on strings: lexicographic order of the code units, a proper
    prefix coming first.  It is the order of the default [sort]. *)
Fixpoint strLt (a b : jsstring) : bool :=
  match a, b with
  | _, [] => false
  | [], _ :: _ => true
  | x :: a', y :: b' => (x <? y)%N || ((x =? y)%N && strLt a' b')
  end.

(** [a.pop()]: the last element, [None] for [undefined] on an empty
    array. *)
Fixpoint pop (a : list jsstring) : option jsstring :=
  match a with
  | [] => None
  | [t] => Some t
  | _ :: a' => pop a'
  end.

(** [a.includes(x)] on an array of strings. *)
Definition arrayIncludes (a : list jsstring) (x : jsstring) : bool :=
  existsb (fun y => strEq y x) a.

(** [a.sort()] on an array of strings: a stable insertion sort by [strLt].
    The result of the built-in is fixed by the order alone. *)
Fixpoint insertSorted (x : jsstring) (l : list jsstring) : list jsstring :=
  match l with
  | [] => [x]
  | y :: l' => if strLt y x then y :: insertSorted x l' else x :: y :: l'
  end.

Definition sort (l : list jsstring) : list jsstring :=
  fold_right insertSorted [] l.

(** [s.padStart(n, fill)] for a one-unit filler. *)
Definition padStart (n : nat) (fill : N) (s : jsstring) : jsstring :=
  repeat fill (n - length s) ++ s.

(** The lowercase digit of a value below 16. *)
Definition hexDigit (d : N) : N :=
  if (d <? 10)%N then (48 + d)%N else (87 + d)%N.

(** [b.toString(16)] for a byte: no leading zero, one digit below 16. *)
Definition toString16 (b : byte) : jsstring :=
  let n := Byte.to_N b in
  if (n <? 16)%N then [hexDigit n]
  else [hexDigit (n / 16); hexDigit (n mod 16)].

(** The decimal digits of a non-negative integer: ToString of a Number
    holding an integer below 10^21. *)
Definition decimal (n : N) : jsstring :=
  lit (DecimalString.NilZero.string_of_uint (N.to_uint n)).

(** The values the callers store in a parameter object, and [undefined]. *)
Inductive value : Type :=
| VUndefined
| VString (s : jsstring)
| VInteger (n : N).

(** ToString of such a value, as a template literal applies it. *)
Definition toString (v : value) : jsstring :=
  match v with
  | VUndefined => lit "undefined"
  | VString s => s
  | VInteger n => decimal n
  end.

(** A plain object with primitive values: its own string-keyed properties
    in the order [Object.keys] and [Object.entries] list them. *)
Definition object := list (jsstring * value).

(** [o[key]] on such an object: the own property, else [undefined]. *)
Fixpoint objGet (o : object) (key : jsstring) : value :=
  match o with
  | [] => VUndefined
  | (k, v) :: o' => if strEq k key then v else objGet o' key
  end.

Definition hasKey (o : object) (key : jsstring) : bool :=
  existsb (fun kv => strEq (fst kv) key) o.

Definition isDigit (c : N) : bool := ((48 <=? c) && (c <=? 57))%N.

Fixpoint digitsValue (acc : N) (s : jsstring) : N :=
  match s with
  | [] => acc
  | c :: s' => digitsValue (10 * acc + (c - 48))%N s'
  end.

(** The array index a key denotes, if any: a canonical decimal numeral of
    an integer below 2^32 - 1.  Such keys are listed first, in numeric
    order. *)
Definition arrayIndex (key : jsstring) : option N :=
  match key with
  | [] => None
  | c :: rest =>
      if forallb isDigit key
         && (negb (c =? 48)%N || match rest with [] => true | _ => false end)
         && (length key <=? 10)%nat
         && (digitsValue 0 key <? 4294967295)%N
      then Some (digitsValue 0 key)
      else None
  end.

(** Replace the value of an existing key, in place. *)
Fixpoint objReplace (o : object) (key : jsstring) (v : value) : object :=
  match o with
  | [] => []
  | (k, w) :: o' =>
      if strEq k key then (k, v) :: o' else (k, w) :: objReplace o' key v
  end.

(** Place a new array-index key [n] before the first key that is not an
    index or is a larger one. *)
Fixpoint objInsertIndex (o : object) (n : N) (key : jsstring) (v : value)
  : object :=
  match o with
  | [] => [(key, v)]
  | (k, w) :: o' =>
      match arrayIndex k with
      | Some m =>
          if (m <? n)%N then (k, w) :: objInsertIndex o' n key v
          else (key, v) :: o
      | None => (key, v) :: o
      end
  end.

(** [o[key] = v] on an object created by [{}], for a primitive [v]: the
    key [__proto__] reaches the prototype setter, which ignores primitives;
    an existing key keeps its place; a new array index is placed among the
    indices; any other new key goes last. *)
Definition objSet (o : object) (key : jsstring) (v : value) : object :=
  if strEq key (lit "__proto__") then o
  else if hasKey o key then objReplace o key v
  else match arrayIndex key with
       | Some n => objInsertIndex o n key v
       | None => o ++ [(key, v)]
       end.

(** The concatenation of an array of strings: [a.join('')]. *)
Definition joinEmpty (a : list jsstring) : jsstring := concat a.

(** What a [catch] clause can receive: an [Error] with its message, or
    any other value. *)
Inductive thrown : Type :=
| ThrownError (message : jsstring)
| ThrownOther.

End JSMore.

Import JSMore.

(** ** The upload-API revisions: signing, upload and conversion by URL *)

Module Upload.

(** The environment bindings the code reads ([Env] of [./types]). *)
Record Env : Type :=
  { CLOUDINARY_API_KEY : jsstring;
    CLOUDINARY_API_SECRET : jsstring;
    CLOUDINARY_CLOUD_NAME : jsstring }.

Record CloudinaryResponse : Type :=
  { secure_url : jsstring; format : jsstring; resource_type : jsstring }.

(** The fields of [CloudinaryUploadResult] the code reads. *)
Record CloudinaryUploadResult : Type :=
  { result_secure_url : jsstring }.

(** What the code uses of a [Response] obtained from [fetch]; reading a
    body may throw. *)
Record FetchResponse : Type :=
  { ok : bool;
    statusText : jsstring;
    text : completion thrown jsstring;
    json : completion thrown CloudinaryUploadResult;
    arrayBuffer : completion thrown Uint8Array }.

(** An uploaded [File]: its name and the outcome of reading it. *)
Record File : Type :=
  { fileName : jsstring; fileArrayBuffer : completion thrown Uint8Array }.

(** The form of a POST request as the code reads it: the [url] entry, a
    string, and the [file] entry, a [File], each possibly missing. *)
Record RequestForm : Type :=
  { urlEntry : option jsstring; fileEntry : option File }.

(** What [fetch] reads of a [Request]: the method, the [url] parameter of
    the query string ([None] for [null]) and the outcome of
    [request.formData()]. *)
Record Request : Type :=
  { method : jsstring;
    searchUrl : option jsstring;
    formData : completion thrown RequestForm }.

(** An entry of the [FormData] sent to the upload API. *)
Inductive FormEntry : Type :=
| FileEntry (name blobType filename : jsstring) (content : Uint8Array)
| TextEntry (name value : jsstring).

(** The POST request [uploadToCloudinary] hands to [fetch]. *)
Record UploadRequest : Type :=
  { requestUrl : jsstring;
    requestMethod : jsstring;
    requestBody : list FormEntry;
    requestHeaders : list (jsstring * jsstring) }.

(** The body given to [new Response]. *)
Inductive Body : Type :=
| BodyNull
| BodyText (s : jsstring)
| BodyBuffer (b : Uint8Array)
| BodyErrorJSON (message : jsstring)
| BodyResultJSON (url format resource_type : jsstring).

(** A [Response] as the code builds it: the status (200 when none is
    given), the body, and the headers passed to the constructor.
    [BodyErrorJSON m] stands for [JSON.stringify({ error: m })] and
    [BodyResultJSON u f r] for
    [JSON.stringify({ url: u, format: f, resource_type: r })]. *)
Record Response : Type :=
  { status : N; body : Body; headers : list (jsstring * jsstring) }.

Definition bind {A B : Type} (c : completion thrown A)
  (k : A -> completion thrown B) : completion thrown B :=
  match c with
  | Normal a => k a
  | Throw e => Throw e
  end.

Notation "x <- c ;; k" := (bind c (fun x => k))
  (at level 61, c at next level, right associativity).

(** The pattern of [secure_url.replace]: a dot, then one or more units
    that are neither slash nor dot, up to the end of the string. *)
Definition inExtensionClass (c : N) : bool :=
  negb (c =? slash)%N && negb (c =? dot)%N.

(** The pattern tried at offset 0. *)
Definition extensionAt (s : jsstring) : bool :=
  match s with
  | [] => false
  | c :: rest =>
      (c =? dot)%N
      && match rest with
         | [] => false
         | _ :: _ => forallb inExtensionClass rest
         end
  end.

(** [s.replace(pattern, replacement)] for that pattern and a replacement
    without dollar sign: the leftmost match, which runs to the end of the
    string, gives way to the replacement; without a match the string is
    returned as it is. *)
Fixpoint replaceExtension (replacement s : jsstring) : jsstring :=
  if extensionAt s then replacement
  else match s with
       | [] => []
       | c :: s' => c :: replaceExtension replacement s'
       end.

Section BuiltIns.

(** [String.prototype.toLowerCase], [new TextDecoder().decode],
    [new TextEncoder().encode] and the SHA-1 digest of
    [crypto.subtle.digest], as bytes. *)
Variable toLowerCase : jsstring -> jsstring.
Variable decode : Uint8Array -> jsstring.
Variable encode : jsstring -> list byte.
Variable digestSHA1 : list byte -> list byte.

(** [x.split('.').pop()?.toLowerCase() || ''], the format of a URL or of
    a file name (lines 601, 669, 673, 843, 921, 925). *)
Definition formatOf (x : jsstring) : jsstring :=
  match pop (split dot x) with
  | Some last =>
      match toLowerCase last with
      | [] => []
      | lowered => lowered
      end
  | None => []
  end.

(** [['svg', 'gif'].includes(format)]. *)
Definition supported (format : jsstring) : bool :=
  arrayIncludes [lit "svg"; lit "gif"] format.

(** The object built by the [reduce] of [generateSignature]. *)
Definition sortedParams (params : object) : object :=
  fold_left (fun acc key => objSet acc key (objGet params key))
    (sort (List.map fst params)) [].

Definition stringToSign (params : object) (env : Env) : jsstring :=
  join ampersand
    (List.map (fun kv => fst kv ++ equals :: toString (snd kv))
       (sortedParams params))
  ++ CLOUDINARY_API_SECRET env.

(** The hexadecimal rendering of the digest bytes. *)
Definition hexOf (hashArray : list byte) : jsstring :=
  joinEmpty (List.map (fun b => padStart 2 digitZero (toString16 b)) hashArray).

(** [generateSignature], lines 573-593 and 815-835. *)
Definition generateSignature (params : object) (env : Env) : jsstring :=
  let data := encode (stringToSign params env) in
  let hashBuffer := digestSHA1 data in
  hexOf hashBuffer.

(** The parameter object of [uploadToCloudinary], lines 772-777. *)
Definition uploadParams (timestamp : N) (env : Env) : object :=
  [(lit "timestamp", VInteger timestamp);
   (lit "upload_preset", VString (lit "ml_default"));
   (lit "api_key", VString (CLOUDINARY_API_KEY env));
   (lit "resource_type", VString (lit "auto"))].

(** The parameter object of the earlier [uploadToCloudinary],
    lines 546-550. *)
Definition uploadParamsEarlier (timestamp : N) (env : Env) : object :=
  [(lit "timestamp", VInteger timestamp);
   (lit "upload_preset", VString (lit "ml_default"));
   (lit "api_key", VString (CLOUDINARY_API_KEY env))].

(** [uploadToCloudinary], lines 764-813.  [now] is the value of
    [Date.now()], a whole number of milliseconds far below 10^21; [post]
    is the answer of [fetch] to the upload request. *)
Definition uploadToCloudinary (now : N)
  (post : UploadRequest -> completion thrown FetchResponse)
  (file : Uint8Array) (format : jsstring) (isAnimated : bool) (env : Env)
  : completion thrown CloudinaryResponse :=
  let formData :=
    [FileEntry (lit "file") (lit "image/" ++ format) (lit "file." ++ format) file;
     TextEntry (lit "upload_preset") (lit "ml_default");
     TextEntry (lit "resource_type") (lit "auto")] in
  let timestamp := (now / 1000)%N in
  let params := uploadParams timestamp env in
  let signature := generateSignature params env in
  let url := lit "https://api.cloudinary.com/v1_1/"
               ++ CLOUDINARY_CLOUD_NAME env ++ lit "/auto/upload" in
  response <- post {| requestUrl := url;
                      requestMethod := lit "POST";
                      requestBody := formData;
                      requestHeaders :=
                        [(lit "X-Timestamp", decimal timestamp);
                         (lit "X-Signature", signature);
                         (lit "X-API-Key", CLOUDINARY_API_KEY env)] |} ;;
  if negb (ok response) then
    errorText <- text response ;;
    Throw (ThrownError (lit "Cloudinary upload failed: "
                          ++ statusText response ++ lit " - " ++ errorText))
  else
    result <- json response ;;
    if isAnimated then
      Normal {| secure_url := replaceExtension (lit ".mp4") (result_secure_url result);
                format := lit "mp4";
                resource_type := lit "video" |}
    else
      Normal {| secure_url := replaceExtension (lit ".png") (result_secure_url result);
                format := lit "png";
                resource_type := lit "image" |}.

(** The animation check of [handleImageConversion] and of the POST
    branch, lines 849-856 and 934-941. *)
Definition detectAnimated (format : jsstring) (fileBuffer : Uint8Array) : bool :=
  let isAnimated := false in
  if strEq format (lit "svg") then
    let svgText := decode fileBuffer in
    Cloudinary.isAnimatedSVG svgText
  else if strEq format (lit "gif") then Cloudinary.isAnimatedGIF fileBuffer
  else isAnimated.

Definition corsHeader : jsstring * jsstring :=
  (lit "Access-Control-Allow-Origin", lit "*").

(** The [catch] clause of [handleImageConversion] and of the POST branch;
    the call of [console.error] leaves no trace in the answer. *)
Definition errorResponse (error : thrown) : Response :=
  let errorMessage :=
    match error with
    | ThrownError message => message
    | ThrownOther => lit "Unknown error occurred"
    end in
  {| status := 500;
     body := BodyErrorJSON errorMessage;
     headers := [(lit "Content-Type", lit "application/json"); corsHeader] |}.

(** [handleImageConversion], lines 837-883.  [fetchSource] answers the
    first [fetch], [fetchConverted] the second one. *)
Definition handleImageConversion (now : N)
  (fetchSource fetchConverted : jsstring -> completion thrown FetchResponse)
  (post : UploadRequest -> completion thrown FetchResponse)
  (url : jsstring) (env : Env) : Response :=
  let attempt : completion thrown Response :=
    response <- fetchSource url ;;
    if negb (ok response) then
      Throw (ThrownError (lit "Failed to fetch image from URL"))
    else
      fileBuffer <- arrayBuffer response ;;
      let format := formatOf url in
      if negb (supported format) then
        Normal {| status := 400;
                  body := BodyText (lit "Unsupported file format");
                  headers := [] |}
      else
        let isAnimated := detectAnimated format fileBuffer in
        uploadResult <- uploadToCloudinary now post fileBuffer format isAnimated env ;;
        convertedResponse <- fetchConverted (secure_url uploadResult) ;;
        convertedBuffer <- arrayBuffer convertedResponse ;;
        Normal {| status := 200;
                  body := BodyBuffer convertedBuffer;
                  headers :=
                    [(lit "Content-Type",
                      if isAnimated then lit "video/mp4" else lit "image/png");
                     corsHeader;
                     (lit "Content-Disposition",
                      lit "inline; filename=" ++ [dquote] ++ lit "converted."
                        ++ (if isAnimated then lit "mp4" else lit "png")
                        ++ [dquote])] |} in
  match attempt with
  | Normal r => r
  | Throw error => errorResponse error
  end.

(** The exported [fetch] handler, lines 885-970.  [fetchUrl] answers the
    [fetch] of the POST branch. *)
Definition fetch (now : N)
  (fetchSource fetchConverted fetchUrl :
     jsstring -> completion thrown FetchResponse)
  (post : UploadRequest -> completion thrown FetchResponse)
  (request : Request) (env : Env) : Response :=
  if strEq (method request) (lit "OPTIONS") then
    {| status := 200;
       body := BodyNull;
       headers :=
         [corsHeader;
          (lit "Access-Control-Allow-Methods", lit "GET, POST");
          (lit "Access-Control-Allow-Headers", lit "Content-Type")] |}
  else if strEq (method request) (lit "GET") then
    match searchUrl request with
    | Some (c :: imageUrl) =>
        handleImageConversion now fetchSource fetchConverted post
          (c :: imageUrl) env
    | _ =>
        {| status := 400;
           body := BodyText (lit "Missing URL parameter");
           headers := [] |}
    end
  else if strEq (method request) (lit "POST") then
    let attempt : completion thrown Response :=
      form <- formData request ;;
      let continue (fileBuffer : Uint8Array) (format : jsstring)
        : completion thrown Response :=
        if negb (supported format) then
          Normal {| status := 400;
                    body := BodyText (lit "Unsupported file format");
                    headers := [] |}
        else
          let isAnimated := detectAnimated format fileBuffer in
          uploadResult <- uploadToCloudinary now post fileBuffer format isAnimated env ;;
          Normal {| status := 200;
                    body := BodyResultJSON (secure_url uploadResult)
                              (if isAnimated then lit "mp4" else lit "png")
                              (if isAnimated then lit "video" else lit "image");
                    headers :=
                      [(lit "Content-Type", lit "application/json");
                       corsHeader] |} in
      match urlEntry form with
      | Some url =>
          response <- fetchUrl url ;;
          if negb (ok response) then
            Throw (ThrownError (lit "Failed to fetch image from URL"))
          else
            fileBuffer <- arrayBuffer response ;;
            continue fileBuffer (formatOf url)
      | None =>
          match fileEntry form with
          | Some file =>
              fileBuffer <- fileArrayBuffer file ;;
              continue fileBuffer (formatOf (fileName file))
          | None =>
              Normal {| status := 400;
                        body := BodyText (lit "No file or URL provided");
                        headers := [] |}
          end
      end in
    match attempt with
    | Normal r => r
    | Throw error => errorResponse error
    end
  else
    {| status := 405;
       body := BodyText (lit "Method not allowed");
       headers := [] |}.

End BuiltIns.

End Upload.

(** ** Vocabulary of the upload properties *)

(** ASCII lowercasing of one unit. *)
Definition asciiLower (c : N) : N :=
  if ((65 <=? c) && (c <=? 90))%N then (c + 32)%N else c.

Definition isASCII (c : N) : bool := (c <? 128)%N.

(** A text that the extension pattern accepts after its dot: non-empty,
    without slash and without dot. *)
Definition isExtension (ext : jsstring) : bool :=
  match ext with
  | [] => false
  | _ :: _ => forallb Upload.inExtensionClass ext
  end.

(** A lowercase hexadecimal digit. *)
Definition isLowerHex (c : N) : bool :=
  (((48 <=? c) && (c <=? 57)) || ((97 <=? c) && (c <=? 102)))%N.

(** Reading hexadecimal digits back. *)
Definition hexValue (c : N) : N :=
  if (c <? 58)%N then (c - 48)%N else (c - 87)%N.

Fixpoint hexDecode (s : jsstring) : option (list byte) :=
  match s with
  | [] => Some []
  | hi :: lo :: rest =>
      match Byte.of_N (16 * hexValue hi + hexValue lo), hexDecode rest with
      | Some b, Some l => Some (b :: l)
      | _, _ => None
      end
  | _ => None
  end.

(** The value of a header in a list of headers. *)
Fixpoint headerValue (name : jsstring) (hs : list (jsstring * jsstring))
  : option jsstring :=
  match hs with
  | [] => None
  | (k, v) :: hs' => if strEq k name then Some v else headerValue name hs'
  end.

(** ** Sample collaborators *)

(** A [fetch] answer with the given status flag and body bytes. *)
Definition answerWith (okFlag : bool) (bytes : Uint8Array) : Upload.FetchResponse :=
  {| Upload.ok := okFlag;
     Upload.statusText := if okFlag then lit "OK" else lit "Not Found";
     Upload.text := Normal [];
     Upload.json := Throw ThrownOther;
     Upload.arrayBuffer := Normal bytes |}.

(** An accepted upload whose stored file is [stored]. *)
Definition accepted (stored : jsstring) : Upload.FetchResponse :=
  {| Upload.ok := true;
     Upload.statusText := lit "OK";
     Upload.text := Normal [];
     Upload.json := Normal {| Upload.result_secure_url := stored |};
     Upload.arrayBuffer := Normal [] |}.

Definition sampleEnv : Upload.Env :=
  {| Upload.CLOUDINARY_API_KEY := lit "key";
     Upload.CLOUDINARY_API_SECRET := lit "secret";
     Upload.CLOUDINARY_CLOUD_NAME := lit "cloud" |}.

(** The built-ins on ASCII text and on bytes below 128, where a code unit
    is its byte; a digest stand-in of 20 bytes. *)
Definition lowerASCII : jsstring -> jsstring := List.map asciiLower.
Definition decodeASCII : Uint8Array -> jsstring := List.map Byte.to_N.
Definition encodeASCII (s : jsstring) : list byte :=
  List.map (fun c => match Byte.of_N c with Some b => b | None => x3f end) s.
Definition digestStandIn (data : list byte) : list byte := repeat x00 20.

(** ** The scan of the block-aware classifier, in terms of bytes *)

(** The bytes 0x21 0xF9, the introducer and label of a Graphic Control
    Extension, sit at offsets [p] and [p + 1]. *)
Definition markerAt (view : Uint8Array) (p : nat) : Prop :=
  nth_error view p = Some x21 /\ nth_error view (p + 1) = Some xf9.

(** The byte 0x2C sits at offset [p]. *)
Definition descriptorAt (view : Uint8Array) (p : nat) : Prop :=
  nth_error view p = Some x2c.

(** [ScanPath view a b]: a scan standing at [a] arrives at [b] by steps of
    8 bytes from a marker, of 11 bytes from a byte 0x2C, and of 1 byte from
    any other byte of the buffer. *)
Inductive ScanPath (view : Uint8Array) : nat -> nat -> Prop :=
| ScanPath_here (a : nat) : ScanPath view a a
| ScanPath_marker (a b : nat) :
    markerAt view a -> ScanPath view (a + 8) b -> ScanPath view a b
| ScanPath_descriptor (a b : nat) :
    descriptorAt view a -> ScanPath view (a + 11) b -> ScanPath view a b
| ScanPath_other (a b : nat) :
    (a < length view)%nat -> ~ markerAt view a -> ~ descriptorAt view a ->
    ScanPath view (a + 1) b -> ScanPath view a b.

(** ** The block structure of a GIF data stream *)

(** The byte at an offset, as a number. *)
Definition byteAt (view : Uint8Array) (i : nat) : option nat :=
  option_map (fun b => N.to_nat (Byte.to_N b)) (nth_error view i).

(** The size of the colour table a packed field announces: none unless
    bit 7 is set, else [2 ^ (n + 1)] entries of 3 bytes, [n] being the low
    three bits. *)
Definition colourTableSize (packed : nat) : nat :=
  if (128 <=? packed)%nat then (3 * 2 ^ (packed mod 8 + 1))%nat else 0%nat.

(** The offset that follows a chain of data sub-blocks: each sub-block is
    a size byte and that many bytes, and a size of 0 ends the chain. *)
Fixpoint skipSubBlocks (fuel : nat) (view : Uint8Array) (pos : nat)
  : option nat :=
  match fuel with
  | O => None
  | S fuel' =>
      match byteAt view pos with
      | None => None
      | Some n =>
          if (n =? 0)%nat then Some (pos + 1)%nat
          else skipSubBlocks fuel' view (pos + 1 + n)%nat
      end
  end.

(** The number of Graphic Control Extension blocks among the blocks that
    start at [pos] and end with the trailer 0x3B: an extension is 0x21, a
    label and sub-blocks; an image is 0x2C, nine descriptor bytes, a local
    colour table if announced, the LZW code size and sub-blocks. *)
Fixpoint countGCEBlocks (fuel : nat) (view : Uint8Array) (pos : nat)
  : option nat :=
  match fuel with
  | O => None
  | S fuel' =>
      match byteAt view pos with
      | None => None
      | Some introducer =>
          if (introducer =? 59)%nat then Some 0%nat
          else if (introducer =? 33)%nat then
            match byteAt view (pos + 1),
                  skipSubBlocks (length view) view (pos + 2) with
            | Some label, Some next =>
                match countGCEBlocks fuel' view next with
                | Some c => Some (if (label =? 249)%nat then S c else c)
                | None => None
                end
            | _, _ => None
            end
          else if (introducer =? 44)%nat then
            match byteAt view (pos + 9) with
            | Some packed =>
                match skipSubBlocks (length view) view
                        (pos + 10 + colourTableSize packed + 1) with
                | Some next => countGCEBlocks fuel' view next
                | None => None
                end
            | None => None
            end
          else None
      end
  end.

(** The number of Graphic Control Extension blocks of a well-formed GIF:
    the signature, the version, the logical screen descriptor with its
    packed field at offset 10, the global colour table if announced, then
    the blocks.  [None] when the buffer is not of that form. *)
Definition gceBlockCount (view : Uint8Array) : option nat :=
  match byteAt view 0, byteAt view 1, byteAt view 2, byteAt view 10 with
  | Some 71%nat, Some 73%nat, Some 70%nat, Some packed =>
      countGCEBlocks (length view) view (13 + colourTableSize packed)
  | _, _, _, _ => None
  end.

(** A single-frame 1 by 1 GIF89a with a global colour table of four
    entries, the first of which is the colour (0x21, 0xF9, 0x00), followed
    by one Graphic Control Extension, one image and the trailer. *)
Definition strayGIF : Uint8Array :=
  [x47; x49; x46; x38; x39; x61; x01; x00; x01; x00; x81; x00; x00]
    ++ [x21; xf9; x00; xff; xff; xff; x00; x00; x00; x00; x00; x00]
    ++ gceBlock ++ frame1x1 ++ [x3b].
(** * Properties of the embedded routines *)

(** ** Reads from a typed array *)

Lemma get_range (view : Uint8Array) (i : nat) (v : Z) :
  get view i = Some v -> 0 <= v <= 255.
Proof.
  unfold get. destruct (nth_error view i) as [b|]; simpl; [|discriminate].
  intros [= <-]. pose proof (Byte.to_N_bounded b). lia.
Qed.

Lemma get_past_end (view : Uint8Array) (i : nat) :
  (length view <= i)%nat -> get view i = None.
Proof.
  intros H. unfold get. apply nth_error_None in H. now rewrite H.
Qed.

Lemma get_in_bounds (view : Uint8Array) (i : nat) (v : Z) :
  get view i = Some v -> (i < length view)%nat.
Proof.
  intros H. destruct (Nat.lt_ge_cases i (length view)) as [L|L]; [exact L|].
  rewrite (get_past_end _ _ L) in H. discriminate.
Qed.

Lemma get_defined (view : Uint8Array) (i : nat) :
  (i < length view)%nat -> exists v, get view i = Some v.
Proof.
  intros H. unfold get. destruct (nth_error view i) eqn:E; simpl; eauto.
  apply nth_error_None in E. lia.
Qed.

(** ** 32-bit arithmetic on bytes *)

Lemma wrap32_small (z : Z) : - 2 ^ 31 <= z < 2 ^ 31 -> wrap32 z = z.
Proof.
  intros H. unfold wrap32. rewrite Z.mod_small; lia.
Qed.

Lemma land_byte_shifted (a b : Z) :
  0 <= a <= 255 -> Z.land a (Z.shiftl b 8) = 0.
Proof.
  intros Ha. apply Z.bits_inj'. intros n Hn.
  rewrite Z.land_spec, Z.bits_0.
  destruct (Z.lt_ge_cases n 8) as [L|L].
  - rewrite (Z.shiftl_spec_low b 8 n L). apply andb_false_r.
  - assert (Z.testbit a n = false) as ->; [|reflexivity].
    destruct (Z.eq_dec a 0) as [->|Hz]; [apply Z.bits_0|].
    apply Z.bits_above_log2; [lia|].
    apply Z.lt_le_trans with 8; [|exact L].
    apply Z.log2_lt_pow2; lia.
Qed.

(** The code's [lo | (hi << 8)] is the little-endian 16-bit number. *)
Lemma bor_shl_bytes (a b : Z) :
  0 <= a <= 255 -> 0 <= b <= 255 ->
  bor (wrap32 a) (shl (wrap32 b) 8) = a + 256 * b.
Proof.
  intros Ha Hb. unfold bor, shl.
  rewrite (wrap32_small a), (wrap32_small b) by lia.
  change (8 mod 32) with 8.
  pose proof (Z.add_lor_land a (Z.shiftl b 8)) as E.
  rewrite land_byte_shifted in E by exact Ha.
  rewrite Z.shiftl_mul_pow2 in * by lia.
  change (2 ^ 8) with 256 in *.
  rewrite (wrap32_small (b * 256)) by lia.
  rewrite wrap32_small; lia.
Qed.

Lemma byteOrZero_range (view : Uint8Array) (i : nat) :
  0 <= byteOrZero view i <= 255.
Proof.
  unfold byteOrZero. destruct (get view i) eqn:E; [|lia].
  exact (get_range _ _ _ E).
Qed.

Lemma toInt32_get (view : Uint8Array) (i : nat) :
  toInt32 (get view i) = wrap32 (byteOrZero view i).
Proof.
  unfold byteOrZero. destruct (get view i); reflexivity.
Qed.

(** The extractor on any buffer, in closed form. *)
Lemma getGIFDimensions_closed (view : Uint8Array) :
  Ffmpeg.getGIFDimensions view =
  {| width := byteOrZero view 6 + 256 * byteOrZero view 7;
     height := byteOrZero view 8 + 256 * byteOrZero view 9 |}.
Proof.
  unfold Ffmpeg.getGIFDimensions. cbv zeta.
  rewrite !toInt32_get.
  rewrite !bor_shl_bytes by apply byteOrZero_range.
  reflexivity.
Qed.

Lemma byteOrZero_present (view : Uint8Array) (i : nat) (b : byte) :
  nth_error view i = Some b -> byteOrZero view i = Z.of_N (Byte.to_N b).
Proof.
  intros H. unfold byteOrZero, get. now rewrite H.
Qed.

Lemma byteOrZero_missing (view : Uint8Array) (i : nat) :
  (length view <= i)%nat -> byteOrZero view i = 0.
Proof.
  intros H. unfold byteOrZero. now rewrite get_past_end.
Qed.

(** ** GIF dimensions *)

(** C5: on a buffer that holds bytes 6 to 9, the extractor returns as width
    the little-endian unsigned 16-bit integer formed from bytes 6 and 7 and
    as height the one formed from bytes 8 and 9; when those bytes are 0x0A,
    0x00, 0x1E, 0x00 the result is width 10 and height 30. *)
Theorem gif_dimensions_little_endian (view : Uint8Array) (b6 b7 b8 b9 : byte) :
  nth_error view 6 = Some b6 ->
  nth_error view 7 = Some b7 ->
  nth_error view 8 = Some b8 ->
  nth_error view 9 = Some b9 ->
  Ffmpeg.getGIFDimensions view
    = {| width := u16le b6 b7; height := u16le b8 b9 |}
  /\ (b6 = x0a -> b7 = x00 -> b8 = x1e -> b9 = x00 ->
      Ffmpeg.getGIFDimensions view = {| width := 10; height := 30 |}).
Proof.
  intros H6 H7 H8 H9.
  assert (E : Ffmpeg.getGIFDimensions view
              = {| width := u16le b6 b7; height := u16le b8 b9 |}).
  { rewrite getGIFDimensions_closed. unfold u16le.
    now rewrite (byteOrZero_present _ _ _ H6), (byteOrZero_present _ _ _ H7),
      (byteOrZero_present _ _ _ H8), (byteOrZero_present _ _ _ H9). }
  split; [exact E|].
  intros -> -> -> ->. rewrite E. reflexivity.
Qed.

Lemma gif_dimensions_little_endian_witness :
  Ffmpeg.getGIFDimensions
    [x47; x49; x46; x38; x39; x61; x0a; x00; x1e; x00; x00; x00; x00]
  = {| width := 10; height := 30 |}.
Proof.
  apply (gif_dimensions_little_endian
           [x47; x49; x46; x38; x39; x61; x0a; x00; x1e; x00; x00; x00; x00]
           x0a x00 x1e x00); reflexivity.
Defined.

(** C10: the GIF dimension extractor is total and never signals an error:
    on every buffer the call completes normally, each byte read past the end
    counts as 0 in the little-endian combination, and the empty buffer
    yields width 0 and height 0. *)
Theorem gif_dimensions_total_zero_fill :
  (forall view : Uint8Array,
      extractGIF view
      = Normal {| width := byteOrZero view 6 + 256 * byteOrZero view 7;
                  height := byteOrZero view 8 + 256 * byteOrZero view 9 |})
  /\ (forall (view : Uint8Array) (i : nat),
         (length view <= i)%nat -> get view i = None /\ byteOrZero view i = 0)
  /\ (forall (view : Uint8Array) (i : nat) (b : byte),
         nth_error view i = Some b -> byteOrZero view i = Z.of_N (Byte.to_N b))
  /\ extractGIF [] = Normal {| width := 0; height := 0 |}.
Proof.
  split; [|split; [|split]].
  - intros view. unfold extractGIF. now rewrite getGIFDimensions_closed.
  - intros view i H. split; [now apply get_past_end|now apply byteOrZero_missing].
  - exact byteOrZero_present.
  - reflexivity.
Qed.

Lemma gif_dimensions_total_zero_fill_witness :
  get [x47; x49; x46] 6 = None /\ byteOrZero [x47; x49; x46] 6 = 0.
Proof.
  apply (proj1 (proj2 gif_dimensions_total_zero_fill) [x47; x49; x46] 6%nat).
  simpl. lia.
Defined.

(** C6, as stated, fails: on the empty buffer, which is shorter than 10
    bytes, the call completes normally with 0 by 0 instead of failing with
    MalformedInput. *)
Lemma gif_short_buffer_no_error :
  (length (@nil byte) < 10)%nat
  /\ extractGIF [] = Normal {| width := 0; height := 0 |}
  /\ extractGIF [] <> Throw MalformedInput.
Proof.
  split; [simpl; lia|]. split; [reflexivity|]. discriminate.
Qed.

(** C6, amended: on every buffer shorter than 10 bytes the extractor
    completes normally (no MalformedInput, no fault); byte 9 is missing, so
    the height is the value of byte 8, or 0 when that is missing too, and a
    buffer of at most 6 bytes yields 0 by 0. *)
Theorem gif_short_buffer_zero_filled (view : Uint8Array) :
  (length view < 10)%nat ->
  extractGIF view = Normal (Ffmpeg.getGIFDimensions view)
  /\ extractGIF view <> Throw MalformedInput
  /\ height (Ffmpeg.getGIFDimensions view) = byteOrZero view 8
  /\ 0 <= height (Ffmpeg.getGIFDimensions view) <= 255
  /\ ((length view <= 6)%nat ->
      Ffmpeg.getGIFDimensions view = {| width := 0; height := 0 |}).
Proof.
  intros H. split; [reflexivity|]. split; [discriminate|].
  rewrite getGIFDimensions_closed. simpl.
  rewrite (byteOrZero_missing view 9) by lia.
  split; [lia|]. split.
  - pose proof (byteOrZero_range view 8). lia.
  - intros L. rewrite !byteOrZero_missing by lia. reflexivity.
Qed.

Lemma gif_short_buffer_zero_filled_witness :
  extractGIF [x47; x49; x46] = Normal (Ffmpeg.getGIFDimensions [x47; x49; x46])
  /\ extractGIF [x47; x49; x46] <> Throw MalformedInput
  /\ height (Ffmpeg.getGIFDimensions [x47; x49; x46])
     = byteOrZero [x47; x49; x46] 8
  /\ 0 <= height (Ffmpeg.getGIFDimensions [x47; x49; x46]) <= 255
  /\ ((length [x47; x49; x46] <= 6)%nat ->
      Ffmpeg.getGIFDimensions [x47; x49; x46] = {| width := 0; height := 0 |}).
Proof.
  apply (gif_short_buffer_zero_filled [x47; x49; x46]). simpl. lia.
Defined.

(** ** The scans *)

Lemma simple_scan_unfold (view : Uint8Array) (pos : nat) :
  Ffmpeg.scan view pos =
  if lt_dec pos (length view) then
    if isGCE view pos then true else Ffmpeg.scan view (pos + 1)
  else false.
Proof.
  rewrite Ffmpeg.scan_equation_1.
  destruct (lt_dec pos (length view)); reflexivity.
Qed.

Lemma strict_scan_unfold (view : Uint8Array) (frames pos : nat) :
  Cloudinary.scan view frames pos =
  if lt_dec pos (length view) then
    if isGCE view pos then
      if (1 <? frames + 1)%nat then true
      else Cloudinary.scan view (frames + 1) (pos + 8)
    else if isImageDescriptor view pos then Cloudinary.scan view frames (pos + 11)
    else Cloudinary.scan view frames (pos + 1)
  else false.
Proof.
  rewrite Cloudinary.scan_equation_1.
  destruct (lt_dec pos (length view)); reflexivity.
Qed.

(** Induction along a scan: positions past the end are base cases, and a
    position inside the buffer may assume the property of all later ones. *)
Lemma scan_position_ind (view : Uint8Array) (P : nat -> Prop) :
  (forall pos, (length view <= pos)%nat -> P pos) ->
  (forall pos, (pos < length view)%nat ->
               (forall pos', (pos < pos')%nat -> P pos') -> P pos) ->
  forall pos, P pos.
Proof.
  intros Hend Hstep.
  assert (G : forall n pos, (length view - pos <= n)%nat -> P pos).
  { induction n as [|n IH]; intros pos Hn.
    - apply Hend. lia.
    - destruct (le_lt_dec (length view) pos) as [L|L]; [now apply Hend|].
      apply Hstep; [exact L|]. intros pos' Hlt. apply IH. lia. }
  intros pos. apply (G (length view - pos)%nat). lia.
Qed.

Lemma strictEq_true (x : option Z) (c : Z) :
  strictEq x c = true <-> x = Some c.
Proof.
  destruct x as [v|]; simpl.
  - rewrite Z.eqb_eq. split; [now intros ->|now intros [= ->]].
  - split; discriminate.
Qed.

(** A read past the end never matches a marker byte. *)
Lemma isGCE_in_bounds (view : Uint8Array) (p : nat) :
  isGCE view p = true -> (p + 1 < length view)%nat.
Proof.
  unfold isGCE. rewrite andb_true_iff, !strictEq_true. intros [_ H].
  exact (get_in_bounds _ _ _ H).
Qed.

Lemma isGCE_near_end (view : Uint8Array) (p : nat) :
  (length view <= p + 1)%nat -> isGCE view p = false.
Proof.
  intros H. destruct (isGCE view p) eqn:E; [|reflexivity].
  apply isGCE_in_bounds in E. lia.
Qed.

Lemma isGCE_not_descriptor (view : Uint8Array) (p : nat) :
  isGCE view p = true -> isImageDescriptor view p = false.
Proof.
  unfold isGCE, isImageDescriptor. rewrite andb_true_iff, strictEq_true.
  intros [-> _]. reflexivity.
Qed.

(** The simple scan answers [true] exactly when a marker lies at or after
    its starting position. *)
Lemma simple_scan_true_iff (view : Uint8Array) (pos : nat) :
  Ffmpeg.scan view pos = true <->
  exists p, (pos <= p)%nat /\ isGCE view p = true.
Proof.
  revert pos. apply (scan_position_ind view).
  - intros pos Hend. rewrite simple_scan_unfold.
    destruct (lt_dec pos (length view)) as [L|_]; [lia|].
    split; [discriminate|]. intros (p & Hp & Hm).
    apply isGCE_in_bounds in Hm. lia.
  - intros pos Hin IH. rewrite simple_scan_unfold.
    destruct (lt_dec pos (length view)) as [_|L]; [|lia].
    destruct (isGCE view pos) eqn:E.
    + split; [|reflexivity]. intros _. exists pos. split; [lia|exact E].
    + rewrite (IH (pos + 1)%nat) by lia. split.
      * intros (p & Hp & Hm). exists p. split; [lia|exact Hm].
      * intros (p & Hp & Hm). exists p. split; [|exact Hm].
        destruct (Nat.eq_dec p pos) as [->|N]; [congruence|lia].
Qed.

(** *** Steps of the block-aware scan *)

Lemma advance_gt (view : Uint8Array) (a : nat) : (a < advance view a)%nat.
Proof.
  unfold advance. destruct (isGCE view a), (isImageDescriptor view a); lia.
Qed.

Lemma Reach_le (view : Uint8Array) (a b : nat) : Reach view a b -> (a <= b)%nat.
Proof.
  induction 1 as [a|a b Ha _ IH]; [lia|].
  pose proof (advance_gt view a). lia.
Qed.

Lemma Reach_trans (view : Uint8Array) (a b c : nat) :
  Reach view a b -> Reach view b c -> Reach view a c.
Proof.
  induction 1 as [a|a b Ha _ IH]; intros Hbc; [exact Hbc|].
  apply Reach_step; [exact Ha|]. now apply IH.
Qed.

(** Two positions reached from the same start lie on one path. *)
Lemma Reach_linear (view : Uint8Array) (a b c : nat) :
  Reach view a b -> Reach view a c -> (b < c)%nat ->
  (b < length view)%nat /\ Reach view (advance view b) c.
Proof.
  induction 1 as [a|a b Ha Hab IH]; intros Hac Hlt.
  - inversion Hac as [|? ? Ha Hrest]; subst; [lia|]. split; assumption.
  - inversion Hac as [|? ? _ Hrest]; subst.
    + apply Reach_le in Hab. pose proof (advance_gt view c). lia.
    + now apply IH.
Qed.

(** With a marker already counted, the scan answers [true] exactly when
    its path meets a marker. *)
Lemma strict_scan_counted_iff (view : Uint8Array) (frames pos : nat) :
  Cloudinary.scan view (S frames) pos = true <->
  exists p, Reach view pos p /\ isGCE view p = true.
Proof.
  revert pos. apply (scan_position_ind view).
  - intros pos Hend. rewrite strict_scan_unfold.
    destruct (lt_dec pos (length view)) as [L|_]; [lia|].
    split; [discriminate|]. intros (p & Hr & Hm).
    apply Reach_le in Hr. apply isGCE_in_bounds in Hm. lia.
  - intros pos Hin IH. rewrite strict_scan_unfold.
    destruct (lt_dec pos (length view)) as [_|L]; [|lia].
    assert (Hone : (1 <? S frames + 1)%nat = true) by (apply Nat.ltb_lt; lia).
    rewrite Hone.
    destruct (isGCE view pos) eqn:E.
    + split; [|reflexivity]. intros _. exists pos. split; [constructor|exact E].
    + assert (Hadv : Cloudinary.scan view (S frames) (advance view pos) = true
                     <-> exists p, Reach view pos p /\ isGCE view p = true).
      { rewrite (IH (advance view pos)) by apply advance_gt. split.
        - intros (p & Hr & Hm). exists p. split; [|exact Hm].
          now apply Reach_step.
        - intros (p & Hr & Hm). exists p. split; [|exact Hm].
          inversion Hr as [|? ? _ Hrest]; subst; [congruence|exact Hrest]. }
      unfold advance in Hadv at 1. rewrite E in Hadv.
      destruct (isImageDescriptor view pos); exact Hadv.
Qed.

(** With no marker counted yet, the scan answers [true] exactly when its
    path meets a marker and, resumed 8 bytes later, meets another one. *)
Lemma strict_scan_fresh_iff (view : Uint8Array) (pos : nat) :
  Cloudinary.scan view 0 pos = true <->
  exists p1 p2, Reach view pos p1 /\ isGCE view p1 = true
                /\ Reach view (p1 + 8) p2 /\ isGCE view p2 = true.
Proof.
  revert pos. apply (scan_position_ind view).
  - intros pos Hend. rewrite strict_scan_unfold.
    destruct (lt_dec pos (length view)) as [L|_]; [lia|].
    split; [discriminate|]. intros (p1 & p2 & Hr & Hm & _).
    apply Reach_le in Hr. apply isGCE_in_bounds in Hm. lia.
  - intros pos Hin IH. rewrite strict_scan_unfold.
    destruct (lt_dec pos (length view)) as [_|L]; [|lia].
    change (1 <? 0 + 1)%nat with false. change (0 + 1)%nat with 1%nat.
    destruct (isGCE view pos) eqn:E.
    + rewrite strict_scan_counted_iff. split.
      * intros (p & Hr & Hm). exists pos, p.
        repeat split; [constructor|exact E|exact Hr|exact Hm].
      * intros (p1 & p2 & Hr1 & Hm1 & Hr2 & Hm2).
        inversion Hr1 as [|? ? _ Hrest]; subst; [now exists p2|].
        unfold advance in Hrest. rewrite E in Hrest.
        exists p2. split; [|exact Hm2].
        apply Reach_trans with (p1 + 8)%nat; [|exact Hr2].
        apply Reach_trans with p1; [exact Hrest|].
        apply Reach_step; [apply isGCE_in_bounds in Hm1; lia|].
        unfold advance. rewrite Hm1. constructor.
    + assert (Hadv : Cloudinary.scan view 0 (advance view pos) = true
                     <-> exists p1 p2, Reach view pos p1 /\ isGCE view p1 = true
                            /\ Reach view (p1 + 8) p2 /\ isGCE view p2 = true).
      { rewrite (IH (advance view pos)) by apply advance_gt. split.
        - intros (p1 & p2 & Hr & Hrest). exists p1, p2. split; [|exact Hrest].
          now apply Reach_step.
        - intros (p1 & p2 & Hr & Hm & Hrest). exists p1, p2.
          split; [|split; [exact Hm|exact Hrest]].
          inversion Hr as [|? ? _ Hr']; subst; [congruence|exact Hr']. }
      unfold advance in Hadv at 1. rewrite E in Hadv.
      destruct (isImageDescriptor view pos); exact Hadv.
Qed.

(** *** The header test *)

Lemma get_byte (view : Uint8Array) (i : nat) (c : byte) :
  get view i = Some (Z.of_N (Byte.to_N c)) <-> nth_error view i = Some c.
Proof.
  unfold get. destruct (nth_error view i) as [b|]; simpl.
  - split.
    + intros [= H]. apply N2Z.inj in H.
      pose proof (Byte.of_to_N b) as Hb. rewrite H, Byte.of_to_N in Hb.
      congruence.
    + now intros [= ->].
  - split; discriminate.
Qed.

Lemma badHeader_false_iff (view : Uint8Array) :
  Cloudinary.badHeader view = false <-> hasSignature view.
Proof.
  unfold Cloudinary.badHeader, hasSignature, strictNe.
  rewrite !orb_false_iff, !negb_false_iff, !strictEq_true.
  rewrite <- (get_byte view 0 x47), <- (get_byte view 1 x49),
    <- (get_byte view 2 x46).
  change (Z.of_N (Byte.to_N x47)) with 0x47.
  change (Z.of_N (Byte.to_N x49)) with 0x49.
  change (Z.of_N (Byte.to_N x46)) with 0x46.
  tauto.
Qed.

Lemma strict_unsigned_static (view : Uint8Array) :
  ~ hasSignature view -> Cloudinary.isAnimatedGIF view = false.
Proof.
  intros H. unfold Cloudinary.isAnimatedGIF. cbv zeta.
  destruct (Cloudinary.badHeader view) eqn:E; [reflexivity|].
  apply badHeader_false_iff in E. contradiction.
Qed.

Lemma strict_signed_scan (view : Uint8Array) :
  hasSignature view ->
  Cloudinary.isAnimatedGIF view = Cloudinary.scan view 0 13.
Proof.
  intros H. apply badHeader_false_iff in H.
  unfold Cloudinary.isAnimatedGIF. cbv zeta. now rewrite H.
Qed.

(** The verdict of the block-aware classifier in terms of the path of its
    scan. *)
Lemma strict_true_iff (view : Uint8Array) :
  Cloudinary.isAnimatedGIF view = true <->
  hasSignature view
  /\ exists p1 p2, (p1 < p2)%nat
       /\ Reach view 13 p1 /\ isGCE view p1 = true
       /\ Reach view 13 p2 /\ isGCE view p2 = true.
Proof.
  split.
  - intros H.
    assert (Hs : hasSignature view).
    { apply badHeader_false_iff.
      destruct (Cloudinary.badHeader view) eqn:E; [|reflexivity].
      unfold Cloudinary.isAnimatedGIF in H. cbv zeta in H.
      rewrite E in H. discriminate. }
    split; [exact Hs|].
    rewrite (strict_signed_scan view Hs), strict_scan_fresh_iff in H.
    destruct H as (p1 & p2 & Hr1 & Hm1 & Hr2 & Hm2).
    exists p1, p2. pose proof (Reach_le _ _ _ Hr2).
    repeat split; [lia|exact Hr1|exact Hm1| |exact Hm2].
    apply Reach_trans with p1; [exact Hr1|].
    apply Reach_step; [apply isGCE_in_bounds in Hm1; lia|].
    unfold advance. now rewrite Hm1.
  - intros (Hs & p1 & p2 & Hlt & Hr1 & Hm1 & Hr2 & Hm2).
    rewrite (strict_signed_scan view Hs), strict_scan_fresh_iff.
    exists p1, p2. repeat split; [exact Hr1|exact Hm1| |exact Hm2].
    destruct (Reach_linear view 13 p1 p2 Hr1 Hr2 Hlt) as [_ Hrest].
    unfold advance in Hrest. now rewrite Hm1 in Hrest.
Qed.

(** *** The scan in terms of bytes *)

Lemma isGCE_bytes (view : Uint8Array) (p : nat) :
  isGCE view p = true <-> markerAt view p.
Proof.
  unfold isGCE, markerAt. rewrite andb_true_iff, !strictEq_true.
  rewrite <- (get_byte view p x21), <- (get_byte view (p + 1) xf9).
  reflexivity.
Qed.

Lemma isImageDescriptor_bytes (view : Uint8Array) (p : nat) :
  isImageDescriptor view p = true <-> descriptorAt view p.
Proof.
  unfold isImageDescriptor, descriptorAt. rewrite strictEq_true.
  rewrite <- (get_byte view p x2c). reflexivity.
Qed.

Lemma isGCE_false_bytes (view : Uint8Array) (p : nat) :
  isGCE view p = false <-> ~ markerAt view p.
Proof.
  rewrite <- isGCE_bytes. destruct (isGCE view p); split;
    congruence || (intros H; now contradiction H).
Qed.

Lemma isImageDescriptor_false_bytes (view : Uint8Array) (p : nat) :
  isImageDescriptor view p = false <-> ~ descriptorAt view p.
Proof.
  rewrite <- isImageDescriptor_bytes. destruct (isImageDescriptor view p);
    split; congruence || (intros H; now contradiction H).
Qed.

Lemma descriptorAt_not_marker (view : Uint8Array) (p : nat) :
  descriptorAt view p -> isGCE view p = false.
Proof.
  intros H. apply isGCE_false_bytes. intros [M _].
  unfold descriptorAt in H. congruence.
Qed.

Lemma nth_error_in_bounds (view : Uint8Array) (p : nat) (b : byte) :
  nth_error view p = Some b -> (p < length view)%nat.
Proof.
  intros H. apply nth_error_Some. congruence.
Qed.

(** The path described on bytes is the path the steps of the code take. *)
Lemma ScanPath_iff_Reach (view : Uint8Array) (a b : nat) :
  ScanPath view a b <-> Reach view a b.
Proof.
  split.
  - induction 1 as [a|a b Hm _ IH|a b Hd _ IH|a b Hin Hm Hd _ IH].
    + constructor.
    + apply Reach_step; [exact (nth_error_in_bounds _ _ _ (proj1 Hm))|].
      unfold advance. apply isGCE_bytes in Hm. now rewrite Hm.
    + apply Reach_step; [exact (nth_error_in_bounds _ _ _ Hd)|].
      unfold advance. rewrite (descriptorAt_not_marker _ _ Hd).
      apply isImageDescriptor_bytes in Hd. now rewrite Hd.
    + apply Reach_step; [exact Hin|].
      unfold advance. apply isGCE_false_bytes in Hm.
      apply isImageDescriptor_false_bytes in Hd. now rewrite Hm, Hd.
  - induction 1 as [a|a b Hin _ IH]; [constructor|].
    unfold advance in IH.
    destruct (isGCE view a) eqn:Em.
    + apply ScanPath_marker; [now apply isGCE_bytes|exact IH].
    + destruct (isImageDescriptor view a) eqn:Ed.
      * apply ScanPath_descriptor; [now apply isImageDescriptor_bytes|exact IH].
      * apply ScanPath_other; [exact Hin| | |exact IH].
        -- now apply isGCE_false_bytes.
        -- now apply isImageDescriptor_false_bytes.
Qed.

Lemma strict_scan_step (view : Uint8Array) (frames pos : nat) :
  (pos < length view)%nat ->
  Cloudinary.scan view frames pos =
  if isGCE view pos then
    if (1 <=? frames)%nat then true
    else Cloudinary.scan view (frames + 1) (pos + 8)
  else if isImageDescriptor view pos
       then Cloudinary.scan view frames (pos + 11)
       else Cloudinary.scan view frames (pos + 1).
Proof.
  intros Hin. rewrite strict_scan_unfold.
  destruct (lt_dec pos (length view)) as [_|L]; [|lia].
  replace (1 <? frames + 1)%nat with (1 <=? frames)%nat; [reflexivity|].
  destruct frames; [reflexivity|].
  symmetry. apply Nat.ltb_lt. lia.
Qed.

(** C1: the block-aware classifier returns static at once when the buffer
    does not start with the signature GIF; otherwise it scans from offset
    13.  On the bytes 0x21 0xF9 it counts a marker, answers animated if one
    was counted before and else steps 8 bytes; on a byte 0x2C it steps 11
    bytes; on any other byte it steps 1 byte; past the end it answers
    static.  So it returns animated exactly when the buffer starts with the
    signature and the path of these steps from offset 13 meets the bytes
    0x21 0xF9 at two of its positions. *)
Theorem strict_classifier_scan (view : Uint8Array) :
  (~ hasSignature view -> Cloudinary.isAnimatedGIF view = false)
  /\ (hasSignature view ->
      Cloudinary.isAnimatedGIF view = Cloudinary.scan view 0 13)
  /\ (forall frames pos : nat,
         markerAt view pos ->
         Cloudinary.scan view frames pos =
         if (1 <=? frames)%nat then true
         else Cloudinary.scan view (frames + 1) (pos + 8))
  /\ (forall frames pos : nat,
         descriptorAt view pos ->
         Cloudinary.scan view frames pos
         = Cloudinary.scan view frames (pos + 11))
  /\ (forall frames pos : nat,
         (pos < length view)%nat ->
         ~ markerAt view pos -> ~ descriptorAt view pos ->
         Cloudinary.scan view frames pos
         = Cloudinary.scan view frames (pos + 1))
  /\ (forall frames pos : nat,
         (length view <= pos)%nat -> Cloudinary.scan view frames pos = false)
  /\ (Cloudinary.isAnimatedGIF view = true <->
      hasSignature view
      /\ exists p1 p2, (p1 < p2)%nat
           /\ ScanPath view 13 p1 /\ markerAt view p1
           /\ ScanPath view 13 p2 /\ markerAt view p2).
Proof.
  split; [apply strict_unsigned_static|].
  split; [apply strict_signed_scan|].
  split; [|split; [|split; [|split]]].
  - intros frames pos Hm.
    rewrite (strict_scan_step view frames pos
               (nth_error_in_bounds _ _ _ (proj1 Hm))).
    apply isGCE_bytes in Hm. now rewrite Hm.
  - intros frames pos Hd.
    rewrite (strict_scan_step view frames pos (nth_error_in_bounds _ _ _ Hd)).
    rewrite (descriptorAt_not_marker _ _ Hd).
    apply isImageDescriptor_bytes in Hd. now rewrite Hd.
  - intros frames pos Hin Hm Hd. rewrite (strict_scan_step view frames pos Hin).
    apply isGCE_false_bytes in Hm. apply isImageDescriptor_false_bytes in Hd.
    now rewrite Hm, Hd.
  - intros frames pos Hend. rewrite strict_scan_unfold.
    destruct (lt_dec pos (length view)) as [L|_]; [lia|reflexivity].
  - rewrite strict_true_iff. split.
    + intros (Hs & p1 & p2 & Hlt & Hr1 & Hm1 & Hr2 & Hm2).
      split; [exact Hs|]. exists p1, p2.
      repeat split; try exact Hlt;
        try (now apply ScanPath_iff_Reach); now apply isGCE_bytes.
    + intros (Hs & p1 & p2 & Hlt & Hr1 & Hm1 & Hr2 & Hm2).
      split; [exact Hs|]. exists p1, p2.
      repeat split; try exact Hlt;
        try (now apply ScanPath_iff_Reach); now apply isGCE_bytes.
Qed.

Ltac scan_path_step :=
  first
    [ apply ScanPath_here
    | apply ScanPath_marker; [split; reflexivity|]
    | apply ScanPath_descriptor; [reflexivity|]
    | apply ScanPath_other;
      [simpl; lia
      |intros [H1 H2]; cbv in H1, H2; (discriminate H1 || discriminate H2)
      |intros H; cbv in H; discriminate H
      |] ].

Lemma strict_classifier_scan_witness :
  Cloudinary.isAnimatedGIF blinkingGIF = true.
Proof.
  apply (proj2 (proj2 (proj2 (proj2 (proj2 (proj2
           (strict_classifier_scan blinkingGIF))))))).
  split; [unfold hasSignature; repeat split; reflexivity|].
  exists 13%nat, 36%nat.
  split; [lia|]. split; [apply ScanPath_here|].
  split; [split; reflexivity|].
  split; [|split; reflexivity].
  repeat scan_path_step.
Defined.

(** *** Counting markers *)

Lemma In_markers (view : Uint8Array) (p : nat) :
  In p (filter (isGCE view) (seq 13 (length view - 13)))
  <-> (13 <= p)%nat /\ isGCE view p = true.
Proof.
  rewrite filter_In, in_seq. split.
  - intros [[H _] Hm]. now split.
  - intros [H Hm]. split; [|exact Hm].
    apply isGCE_in_bounds in Hm. lia.
Qed.

Lemma gceCount_two (view : Uint8Array) (p1 p2 : nat) :
  (13 <= p1)%nat -> (p1 < p2)%nat ->
  isGCE view p1 = true -> isGCE view p2 = true ->
  (2 <= gceCount view)%nat.
Proof.
  intros H13 Hlt Hm1 Hm2.
  assert (I1 : In p1 (filter (isGCE view) (seq 13 (length view - 13))))
    by (apply In_markers; split; [lia|exact Hm1]).
  assert (I2 : In p2 (filter (isGCE view) (seq 13 (length view - 13))))
    by (apply In_markers; split; [lia|exact Hm2]).
  unfold gceCount.
  destruct (filter (isGCE view) (seq 13 (length view - 13))) as [|a [|b l]];
    simpl in *; lia.
Qed.

Lemma gceCount_positive (view : Uint8Array) :
  (1 <= gceCount view)%nat ->
  exists p, (13 <= p)%nat /\ isGCE view p = true.
Proof.
  unfold gceCount. intros H.
  destruct (filter (isGCE view) (seq 13 (length view - 13))) as [|a l] eqn:E;
    [simpl in H; lia|].
  exists a. apply In_markers. rewrite E. now left.
Qed.

Lemma strict_static_below_two (view : Uint8Array) :
  (gceCount view < 2)%nat -> Cloudinary.isAnimatedGIF view = false.
Proof.
  intros H. destruct (Cloudinary.isAnimatedGIF view) eqn:E; [|reflexivity].
  apply strict_true_iff in E.
  destruct E as (_ & p1 & p2 & Hlt & Hr1 & Hm1 & _ & Hm2).
  apply Reach_le in Hr1.
  pose proof (gceCount_two view p1 p2 Hr1 Hlt Hm1 Hm2). lia.
Qed.

(** *** Markers the block-aware scan is sure to meet *)

Lemma strict_scan_counted_finds (view : Uint8Array) (frames p : nat) :
  descriptorsClear view -> isGCE view p = true ->
  forall pos, (13 <= pos <= p)%nat ->
              Cloudinary.scan view (S frames) pos = true.
Proof.
  intros Hclear Hm. apply (scan_position_ind view
    (fun pos => (13 <= pos <= p)%nat ->
                Cloudinary.scan view (S frames) pos = true)).
  - intros pos Hend Hle. apply isGCE_in_bounds in Hm. lia.
  - intros pos Hin IH Hle. rewrite strict_scan_unfold.
    destruct (lt_dec pos (length view)) as [_|L]; [|lia].
    assert (Hone : (1 <? S frames + 1)%nat = true) by (apply Nat.ltb_lt; lia).
    rewrite Hone.
    destruct (isGCE view pos) eqn:E; [reflexivity|].
    assert (Hne : p <> pos) by congruence.
    destruct (isImageDescriptor view pos) eqn:D.
    + pose proof (Hclear pos p (proj1 Hle) D Hm). apply IH; lia.
    + apply IH; lia.
Qed.

Lemma strict_scan_fresh_finds (view : Uint8Array) (p1 p2 : nat) :
  descriptorsClear view ->
  isGCE view p1 = true -> isGCE view p2 = true -> (p1 + 8 <= p2)%nat ->
  forall pos, (13 <= pos <= p1)%nat -> Cloudinary.scan view 0 pos = true.
Proof.
  intros Hclear Hm1 Hm2 Hfar. apply (scan_position_ind view
    (fun pos => (13 <= pos <= p1)%nat -> Cloudinary.scan view 0 pos = true)).
  - intros pos Hend Hle. apply isGCE_in_bounds in Hm1. lia.
  - intros pos Hin IH Hle. rewrite strict_scan_unfold.
    destruct (lt_dec pos (length view)) as [_|L]; [|lia].
    change (1 <? 0 + 1)%nat with false. change (0 + 1)%nat with 1%nat.
    destruct (isGCE view pos) eqn:E.
    + apply (strict_scan_counted_finds view 0 p2 Hclear Hm2). lia.
    + assert (Hne : p1 <> pos) by congruence.
      destruct (isImageDescriptor view pos) eqn:D.
      * pose proof (Hclear pos p1 (proj1 Hle) D Hm1). apply IH; lia.
      * apply IH; lia.
Qed.

(** C3, as stated, fails: [twoFrameGIF] holds two Graphic Control
    Extension blocks, one per frame, yet the block-aware classifier returns
    static.  The byte 0x2C inside the first frame's pixel data makes the
    scan step 11 bytes, over the second marker. *)
Lemma two_frame_gif_static :
  hasSignature twoFrameGIF
  /\ gceCount twoFrameGIF = 2%nat
  /\ Cloudinary.isAnimatedGIF twoFrameGIF = false.
Proof.
  unfold hasSignature. repeat split; vm_compute; reflexivity.
Qed.

(** C3, amended: a buffer with fewer than two markers after its header is
    static; a buffer is animated when it starts with the signature GIF,
    holds two markers after the header at least 8 bytes apart, and no marker
    starts within the 10 bytes following a byte 0x2C. *)
Theorem strict_verdict_and_marker_count (view : Uint8Array) :
  ((gceCount view < 2)%nat -> Cloudinary.isAnimatedGIF view = false)
  /\ (hasSignature view -> descriptorsClear view ->
      (exists p1 p2, (13 <= p1)%nat /\ (p1 + 8 <= p2)%nat
                     /\ isGCE view p1 = true /\ isGCE view p2 = true) ->
      Cloudinary.isAnimatedGIF view = true).
Proof.
  split; [apply strict_static_below_two|].
  intros Hs Hclear (p1 & p2 & H13 & Hfar & Hm1 & Hm2).
  rewrite (strict_signed_scan view Hs).
  apply (strict_scan_fresh_finds view p1 p2 Hclear Hm1 Hm2 Hfar). lia.
Qed.

Lemma descriptorsClearb_sound (view : Uint8Array) :
  descriptorsClearb view = true -> descriptorsClear view.
Proof.
  unfold descriptorsClearb, descriptorsClear, isImageDescriptor.
  rewrite forallb_forall. intros H q m Hq D Hm Hin.
  assert (Hlen : (q < length view)%nat).
  { apply strictEq_true in D. exact (get_in_bounds _ _ _ D). }
  specialize (H q). rewrite in_seq in H. specialize (H ltac:(lia)).
  rewrite D in H. cbn [negb orb] in H. rewrite forallb_forall in H.
  specialize (H m). rewrite in_seq in H. specialize (H ltac:(lia)).
  rewrite Hm in H. discriminate.
Qed.

Lemma strict_verdict_and_marker_count_witness :
  Cloudinary.isAnimatedGIF blinkingGIF = true.
Proof.
  apply (proj2 (strict_verdict_and_marker_count blinkingGIF)).
  - unfold hasSignature. repeat split; reflexivity.
  - apply descriptorsClearb_sound. vm_compute. reflexivity.
  - exists 13%nat, 36%nat. repeat split; vm_compute; try reflexivity; lia.
Defined.

(** C4, as stated, fails: [strayGIF] is a well-formed single-frame GIF
    with exactly one Graphic Control Extension block, yet the block-aware
    classifier returns animated.  The scan starts inside the global colour
    table, whose first entry holds the bytes 0x21 0xF9: it counts them at
    offset 13 as a first marker and the real block at offset 25 as a
    second one. *)
Lemma single_frame_gif_animated :
  hasSignature strayGIF
  /\ gceBlockCount strayGIF = Some 1%nat
  /\ markerAt strayGIF 13 /\ markerAt strayGIF 25
  /\ Cloudinary.isAnimatedGIF strayGIF = true.
Proof.
  unfold hasSignature, markerAt. repeat split; vm_compute; reflexivity.
Qed.

(** C4, amended: the two classifiers differ.  On every buffer holding
    exactly one Graphic Control Extension marker, the bytes 0x21 0xF9, at
    offset 13 or later, the block-aware classifier returns static while
    the simple one returns animated, at the first occurrence of the
    marker; [oneFrameGIF] is such a buffer. *)
Theorem classifiers_differ_on_single_gce :
  (exists view : Uint8Array,
      Cloudinary.isAnimatedGIF view <> Ffmpeg.isAnimatedGIF view)
  /\ (forall view : Uint8Array,
         gceCount view = 1%nat ->
         Cloudinary.isAnimatedGIF view = false
         /\ Ffmpeg.isAnimatedGIF view = true)
  /\ (forall (view : Uint8Array) (p : nat),
         (13 <= p)%nat -> isGCE view p = true ->
         Ffmpeg.isAnimatedGIF view = true)
  /\ (forall (view : Uint8Array) (p : nat),
         isGCE view p = true <-> markerAt view p).
Proof.
  split; [|split; [|split; [|exact isGCE_bytes]]].
  - exists oneFrameGIF. vm_compute. discriminate.
  - intros view H. split.
    + apply strict_static_below_two. lia.
    + destruct (gceCount_positive view ltac:(lia)) as (p & Hp & Hm).
      unfold Ffmpeg.isAnimatedGIF. cbv zeta. apply simple_scan_true_iff.
      now exists p.
  - intros view p Hp Hm. unfold Ffmpeg.isAnimatedGIF. cbv zeta.
    apply simple_scan_true_iff. now exists p.
Qed.

Lemma classifiers_differ_on_single_gce_witness :
  Cloudinary.isAnimatedGIF oneFrameGIF = false
  /\ Ffmpeg.isAnimatedGIF oneFrameGIF = true.
Proof.
  apply (proj1 (proj2 classifiers_differ_on_single_gce) oneFrameGIF).
  vm_compute. reflexivity.
Defined.

(** *** Truncated buffers *)

Lemma strict_scan_fresh_tail (view : Uint8Array) :
  forall pos, (length view <= pos + 8)%nat -> Cloudinary.scan view 0 pos = false.
Proof.
  apply (scan_position_ind view
    (fun pos => (length view <= pos + 8)%nat -> Cloudinary.scan view 0 pos = false)).
  - intros pos Hend _. rewrite strict_scan_unfold.
    destruct (lt_dec pos (length view)) as [L|_]; [lia|reflexivity].
  - intros pos Hin IH Hnear. rewrite strict_scan_unfold.
    destruct (lt_dec pos (length view)) as [_|L]; [|lia].
    change (1 <? 0 + 1)%nat with false. change (0 + 1)%nat with 1%nat.
    destruct (isGCE view pos).
    + rewrite strict_scan_unfold.
      destruct (lt_dec (pos + 8) (length view)) as [L|_]; [lia|reflexivity].
    + destruct (isImageDescriptor view pos); apply IH; lia.
Qed.

Lemma simple_short_static (view : Uint8Array) :
  (length view <= 14)%nat -> Ffmpeg.isAnimatedGIF view = false.
Proof.
  intros H. destruct (Ffmpeg.isAnimatedGIF view) eqn:E; [|reflexivity].
  unfold Ffmpeg.isAnimatedGIF in E. cbv zeta in E.
  apply simple_scan_true_iff in E. destruct E as (p & Hp & Hm).
  apply isGCE_in_bounds in Hm. lia.
Qed.

Lemma strict_short_static (view : Uint8Array) :
  (length view <= 21)%nat -> Cloudinary.isAnimatedGIF view = false.
Proof.
  intros H. unfold Cloudinary.isAnimatedGIF. cbv zeta.
  destruct (Cloudinary.badHeader view); [reflexivity|].
  apply strict_scan_fresh_tail. simpl. lia.
Qed.

(** C8, as stated, fails: in [cutInSecondGCE] the marker at offset 21 lacks
    its argument bytes, yet the block-aware classifier returns animated; in
    [cutInFirstGCE] the marker at offset 13 lacks them, and the simple
    classifier returns animated. *)
Lemma truncated_marker_animated :
  truncatedGCE cutInSecondGCE 21
  /\ Cloudinary.isAnimatedGIF cutInSecondGCE = true
  /\ truncatedGCE cutInFirstGCE 13
  /\ Ffmpeg.isAnimatedGIF cutInFirstGCE = true.
Proof.
  unfold truncatedGCE.
  repeat split; try (vm_compute; reflexivity); simpl; lia.
Qed.

(** C8, amended: on every buffer both scans run to completion without a
    fault.  A read at or past the end gives [undefined], which matches no
    marker byte, so no marker starts on the last byte.  Every buffer shorter
    than 13 bytes is static for both classifiers (up to 14 bytes for the
    simple one, up to 21 for the block-aware one), and the block-aware scan
    that has counted no marker yet and stands within the last 8 bytes
    returns static.  A marker whose argument bytes are missing is still a
    marker: the simple classifier returns animated on any marker found at
    offset 13 or later. *)
Theorem scans_on_truncated_buffers (view : Uint8Array) :
  (forall p, (length view <= p)%nat ->
             get view p = None /\ forall c, strictEq (get view p) c = false)
  /\ (forall p, (length view <= p + 1)%nat -> isGCE view p = false)
  /\ ((length view < 13)%nat ->
      Ffmpeg.isAnimatedGIF view = false
      /\ Cloudinary.isAnimatedGIF view = false)
  /\ ((length view <= 14)%nat -> Ffmpeg.isAnimatedGIF view = false)
  /\ ((length view <= 21)%nat -> Cloudinary.isAnimatedGIF view = false)
  /\ (forall pos, (length view <= pos + 8)%nat ->
                  Cloudinary.scan view 0 pos = false)
  /\ (forall pos, (length view <= pos)%nat ->
                  Ffmpeg.scan view pos = false
                  /\ forall frames, Cloudinary.scan view frames pos = false)
  /\ (forall p, (13 <= p)%nat -> isGCE view p = true ->
                Ffmpeg.isAnimatedGIF view = true).
Proof.
  split; [|split; [|split; [|split; [|split; [|split; [|split]]]]]];
    [| | | | | | |intros p Hp Hm; unfold Ffmpeg.isAnimatedGIF; cbv zeta;
                   apply simple_scan_true_iff; now exists p].
  - intros p H. rewrite (get_past_end _ _ H). now split.
  - apply isGCE_near_end.
  - intros H. split; [apply simple_short_static|apply strict_short_static]; lia.
  - apply simple_short_static.
  - apply strict_short_static.
  - apply strict_scan_fresh_tail.
  - intros pos H. split; [|intros frames].
    + rewrite simple_scan_unfold.
      destruct (lt_dec pos (length view)) as [L|_]; [lia|reflexivity].
    + rewrite strict_scan_unfold.
      destruct (lt_dec pos (length view)) as [L|_]; [lia|reflexivity].
Qed.

Lemma scans_on_truncated_buffers_witness :
  Ffmpeg.isAnimatedGIF [x47; x49; x46; x38; x39; x61; x21] = false
  /\ Cloudinary.isAnimatedGIF [x47; x49; x46; x38; x39; x61; x21] = false.
Proof.
  apply (proj1 (proj2 (proj2
           (scans_on_truncated_buffers [x47; x49; x46; x38; x39; x61; x21])))).
  simpl. lia.
Defined.

(** ** SVG animation *)

Lemma startsWith_iff (p s : jsstring) :
  startsWith p s = true <-> exists post, s = p ++ post.
Proof.
  revert s. induction p as [|a p IH]; intros s; simpl.
  - split; [intros _; now exists s|reflexivity].
  - destruct s as [|b s].
    + split; [discriminate|]. intros [post H]. discriminate.
    + rewrite andb_true_iff, N.eqb_eq, IH. split.
      * intros [-> [post ->]]. now exists post.
      * intros [post [= -> ->]]. split; [reflexivity|now exists post].
Qed.

Lemma includes_iff (s p : jsstring) :
  includes s p = true <-> Substring p s.
Proof.
  unfold Substring. induction s as [|c s IH]; simpl.
  - rewrite orb_false_r, startsWith_iff. split.
    + intros [post H]. now exists [], post.
    + intros (pre & post & H). destruct pre; [now exists post|discriminate].
  - rewrite orb_true_iff, startsWith_iff, IH. split.
    + intros [[post H]|(pre & post & H)].
      * now exists [], post.
      * exists (c :: pre), post. simpl. now rewrite H.
    + intros (pre & post & H). destruct pre as [|c' pre]; simpl in H.
      * left. now exists post.
      * right. injection H as _ H. now exists pre, post.
Qed.

(** C2: the classifier, in both revisions, returns animated exactly when
    the text contains one of the four literal substrings anywhere, whatever
    surrounds the occurrence, and static otherwise. *)
Theorem svg_animated_iff_tag_substring (svgText : jsstring) :
  (Ffmpeg.isAnimatedSVG svgText = true
   <-> exists tag, In tag smilTags /\ Substring tag svgText)
  /\ (Ffmpeg.isAnimatedSVG svgText = false
      <-> forall tag, In tag smilTags -> ~ Substring tag svgText)
  /\ Cloudinary.isAnimatedSVG svgText = Ffmpeg.isAnimatedSVG svgText.
Proof.
  assert (T : Ffmpeg.isAnimatedSVG svgText = true
              <-> exists tag, In tag smilTags /\ Substring tag svgText).
  { unfold Ffmpeg.isAnimatedSVG. rewrite existsb_exists.
    split; intros (tag & Hin & H); exists tag; (split; [exact Hin|]);
      now apply includes_iff. }
  split; [exact T|split].
  - rewrite <- not_true_iff_false, T. split.
    + intros H tag Hin Hs. apply H. now exists tag.
    + intros H (tag & Hin & Hs). exact (H tag Hin Hs).
  - unfold Cloudinary.isAnimatedSVG, Ffmpeg.isAnimatedSVG,
      Cloudinary.animationElements, Ffmpeg.animationElements.
    cbn [existsb].
    destruct (includes svgText (lit "<animate")),
      (includes svgText (lit "<animateMotion")),
      (includes svgText (lit "<animateTransform")),
      (includes svgText (lit "<set")); reflexivity.
Qed.

(** ** The attribute pattern *)

Lemma stripPrefix_iff (p s r : jsstring) :
  stripPrefix p s = Some r <-> s = p ++ r.
Proof.
  revert s. induction p as [|a p IH]; intros s; simpl.
  - split; [now intros [= ->]|now intros ->].
  - destruct s as [|b s]; [split; discriminate|].
    destruct (N.eqb_spec a b) as [->|N].
    + rewrite IH. split; [now intros ->|now intros [= ->]].
    + split; [discriminate|]. intros [= -> _]. contradiction.
Qed.

Lemma spanNonQuote_spec (s v r : jsstring) :
  spanNonQuote s = (v, r) ->
  s = v ++ r /\ ~ In dquote v /\ (r = [] \/ exists r', r = dquote :: r').
Proof.
  revert v r. induction s as [|c s IH]; intros v r; simpl.
  - intros [= <- <-]. repeat split; [intros []|now left].
  - destruct (N.eqb_spec c dquote) as [->|N].
    + intros [= <- <-]. repeat split; [intros []|right; now exists s].
    + destruct (spanNonQuote s) as [v' r'] eqn:E. intros [= <- <-].
      destruct (IH v' r' eq_refl) as (-> & Hq & Hr).
      repeat split; [|exact Hr]. intros [H|H]; [now apply N|now apply Hq].
Qed.

Lemma spanNonQuote_app (v post : jsstring) :
  ~ In dquote v -> spanNonQuote (v ++ dquote :: post) = (v, dquote :: post).
Proof.
  induction v as [|c v IH]; intros Hq; cbn [app spanNonQuote].
  - now rewrite N.eqb_refl.
  - destruct (N.eqb_spec c dquote) as [->|N]; [exfalso; apply Hq; now left|].
    rewrite IH; [reflexivity|]. intros H. apply Hq. now right.
Qed.

(** The embedded pattern matches at the start of a string exactly as the
    regular expression does. *)
Lemma matchAt_iff (name s v : jsstring) :
  matchAt name s = Some v <-> MatchesAt name s v.
Proof.
  unfold matchAt, MatchesAt. split.
  - destruct (stripPrefix (name ++ [equals; dquote]) s) as [rest|] eqn:E;
      [|discriminate].
    apply stripPrefix_iff in E.
    destruct (spanNonQuote rest) as [w r] eqn:S.
    destruct (spanNonQuote_spec _ _ _ S) as (-> & Hq & Hr).
    destruct w as [|c w]; [discriminate|].
    destruct r as [|q r]; [discriminate|]. intros [= <-].
    destruct Hr as [Hr|[r' [= -> ->]]]; [discriminate|].
    exists r'. repeat split; [exact E|discriminate|exact Hq].
  - intros (post & -> & Hne & Hq).
    assert (E : stripPrefix (name ++ [equals; dquote])
                  ((name ++ [equals; dquote]) ++ v ++ dquote :: post)
                = Some (v ++ dquote :: post)) by now apply stripPrefix_iff.
    rewrite E, (spanNonQuote_app v post Hq).
    destruct v; [contradiction|reflexivity].
Qed.

Lemma matchAttr_unfold (name s : jsstring) :
  matchAttr name s =
  match matchAt name s with
  | Some v => Some v
  | None => match s with [] => None | _ :: s' => matchAttr name s' end
  end.
Proof. destruct s; reflexivity. Qed.

(** [match] returns the capture of the leftmost match. *)
Lemma matchAttr_Some_iff (name s v : jsstring) :
  matchAttr name s = Some v <-> FirstMatch name s v.
Proof.
  unfold FirstMatch. split.
  - revert v. induction s as [|c s IH]; intros v; rewrite matchAttr_unfold.
    + destruct (matchAt name []) as [w|] eqn:E; [|discriminate].
      intros [= <-]. exists [], []. split; [reflexivity|].
      split; [now apply matchAt_iff|].
      intros pre1 pre2 v' H. destruct pre1, pre2; try discriminate.
      intros N. contradiction.
    + destruct (matchAt name (c :: s)) as [w|] eqn:E.
      * intros [= <-]. exists [], (c :: s). split; [reflexivity|].
        split; [now apply matchAt_iff|].
        intros pre1 pre2 v' H. destruct pre1, pre2; try discriminate.
        intros N. contradiction.
      * intros H. destruct (IH v H) as (pre & suf & -> & Hm & Hfirst).
        exists (c :: pre), suf. split; [reflexivity|]. split; [exact Hm|].
        intros pre1 pre2 v' Hsplit Hne Hm'.
        destruct pre1 as [|c' pre1]; simpl in Hsplit.
        -- subst pre2. apply matchAt_iff in Hm'. simpl in Hm'. congruence.
        -- injection Hsplit as _ Hsplit.
           exact (Hfirst pre1 pre2 v' Hsplit Hne Hm').
  - intros (pre & suf & -> & Hm & Hfirst).
    induction pre as [|c pre IH]; rewrite matchAttr_unfold.
    + simpl. apply matchAt_iff in Hm. now rewrite Hm.
    + destruct (matchAt name ((c :: pre) ++ suf)) as [w|] eqn:E.
      * exfalso. apply matchAt_iff in E.
        exact (Hfirst [] (c :: pre) w eq_refl ltac:(discriminate) E).
      * simpl. apply IH. intros pre1 pre2 v' Hsplit.
        apply (Hfirst (c :: pre1) pre2 v'). simpl. now rewrite Hsplit.
Qed.

(** [match] returns [null] exactly when the pattern matches nowhere. *)
Lemma matchAttr_None_iff (name s : jsstring) :
  matchAttr name s = None <-> NoMatch name s.
Proof.
  unfold NoMatch. induction s as [|c s IH]; rewrite matchAttr_unfold.
  - destruct (matchAt name []) as [w|] eqn:E.
    + split; [discriminate|]. intros H. exfalso.
      apply (H [] [] w eq_refl). now apply matchAt_iff.
    + split; [|reflexivity]. intros _ pre suf v H Hm.
      destruct pre, suf; try discriminate.
      apply matchAt_iff in Hm. congruence.
  - destruct (matchAt name (c :: s)) as [w|] eqn:E.
    + split; [discriminate|]. intros H. exfalso.
      apply (H [] (c :: s) w eq_refl). now apply matchAt_iff.
    + rewrite IH. split.
      * intros H pre suf v Hsplit Hm. destruct pre as [|c' pre]; simpl in Hsplit.
        -- subst suf. apply matchAt_iff in Hm. congruence.
        -- injection Hsplit as _ Hsplit. exact (H pre suf v Hsplit Hm).
      * intros H pre suf v Hsplit. apply (H (c :: pre) suf v).
        simpl. now rewrite Hsplit.
Qed.

(** ** Splitting at a separator *)

Lemma split_nonempty (sep : N) (s : jsstring) : split sep s <> [].
Proof.
  destruct s as [|c s]; simpl; [discriminate|].
  destruct (c =? sep)%N; [discriminate|].
  destruct (split sep s); discriminate.
Qed.

Lemma split_join (sep : N) (pieces : list jsstring) :
  pieces <> [] -> Forall (fun t => ~ In sep t) pieces ->
  split sep (join sep pieces) = pieces.
Proof.
  induction pieces as [|t ts IH]; intros Hne Hall; [contradiction|].
  inversion Hall as [|? ? Ht Hts]; subst.
  assert (G : forall rest : list jsstring,
             ~ In sep t ->
             (forall u, split sep u = rest -> rest <> [] ->
                        split sep (t ++ sep :: u) = t :: rest)
             /\ split sep t = [t]).
  { intros rest. clear. induction t as [|c t IHt]; intros Hq.
    - split; [|reflexivity]. intros u Hu _. simpl. rewrite N.eqb_refl.
      now rewrite Hu.
    - assert (Hc : (c =? sep)%N = false).
      { apply N.eqb_neq. intros ->. apply Hq. now left. }
      assert (Hq' : ~ In sep t) by (intros H; apply Hq; now right).
      destruct (IHt Hq') as [IH1 IH2]. split.
      + intros u Hu Hr. simpl. rewrite Hc, (IH1 u Hu Hr). reflexivity.
      + simpl. rewrite Hc, IH2. reflexivity. }
  destruct ts as [|t' ts'].
  - simpl. exact (proj2 (G [] Ht)).
  - change (join sep (t :: t' :: ts')) with (t ++ sep :: join sep (t' :: ts')).
    apply (proj1 (G (t' :: ts') Ht)); [|discriminate].
    apply IH; [discriminate|exact Hts].
Qed.

Lemma join_split (sep : N) (s : jsstring) :
  join sep (split sep s) = s /\ Forall (fun t => ~ In sep t) (split sep s).
Proof.
  induction s as [|c s [IHj IHf]]; simpl.
  - split; [reflexivity|]. constructor; [intros []|constructor].
  - destruct (N.eqb_spec c sep) as [->|N].
    + pose proof (split_nonempty sep s) as Hne.
      destruct (split sep s) as [|t ts] eqn:E; [contradiction|].
      split.
      * change (join sep ([] :: t :: ts)) with ([] ++ sep :: join sep (t :: ts)).
        now rewrite IHj.
      * constructor; [intros []|exact IHf].
    + pose proof (split_nonempty sep s) as Hne.
      destruct (split sep s) as [|t ts] eqn:E; [contradiction|].
      pose proof (Forall_inv IHf) as Ht.
      pose proof (Forall_inv_tail IHf) as Hts. split.
      * destruct ts as [|t' ts']; simpl in *; now rewrite IHj.
      * constructor; [|exact Hts]. intros [H|H]; [now apply N|now apply Ht].
Qed.

Lemma element_map (Number : jsstring -> float) (pieces : list jsstring) (i : nat) :
  element (List.map Number pieces) i = piece Number pieces i.
Proof.
  unfold element, piece. rewrite nth_error_map.
  destruct (nth_error pieces i); reflexivity.
Qed.

(** ** SVG dimensions *)

Lemma svg_dimensions_viewBox (Number parseFloat : jsstring -> float)
  (svgText viewBox : jsstring) :
  matchAttr (lit "viewBox") svgText = Some viewBox ->
  Ffmpeg.getSVGDimensions Number parseFloat svgText
  = {| width := piece Number (split space viewBox) 2;
       height := piece Number (split space viewBox) 3 |}.
Proof.
  intros H. unfold Ffmpeg.getSVGDimensions. cbv zeta. rewrite H.
  now rewrite !element_map.
Qed.

Lemma svg_dimensions_attributes (Number parseFloat : jsstring -> float)
  (svgText : jsstring) :
  matchAttr (lit "viewBox") svgText = None ->
  Ffmpeg.getSVGDimensions Number parseFloat svgText
  = {| width := match matchAttr (lit "width") svgText with
                | Some m => JNumber (parseFloat m)
                | None => JNumber 800
                end;
       height := match matchAttr (lit "height") svgText with
                 | Some m => JNumber (parseFloat m)
                 | None => JNumber 600
                 end |}.
Proof.
  intros H. unfold Ffmpeg.getSVGDimensions. cbv zeta. now rewrite H.
Qed.

(** C7, as stated, fails: the viewBox value of [svgTabbedViewBox] has the
    four white-space-separated tokens 0, 0, 120 and 80, yet the extractor
    returns [undefined] for both dimensions instead of the numbers of the
    third and fourth token: the code splits at single spaces only, and the
    tab-separated value is one piece. *)
Lemma svg_tabbed_viewBox_undefined :
  FirstMatch (lit "viewBox") svgTabbedViewBox tabbedValue
  /\ wsTokens tabbedValue = [lit "0"; lit "0"; lit "120"; lit "80"]
  /\ (forall Number parseFloat : jsstring -> float,
         Ffmpeg.getSVGDimensions Number parseFloat svgTabbedViewBox
         = {| width := JUndefined; height := JUndefined |})
  /\ (forall Number parseFloat : jsstring -> float,
         width (Ffmpeg.getSVGDimensions Number parseFloat svgTabbedViewBox)
         <> JNumber (Number (lit "120"))).
Proof.
  split; [apply matchAttr_Some_iff; vm_compute; reflexivity|].
  split; [vm_compute; reflexivity|].
  assert (E : forall Number parseFloat : jsstring -> float,
             Ffmpeg.getSVGDimensions Number parseFloat svgTabbedViewBox
             = {| width := JUndefined; height := JUndefined |}).
  { intros Number parseFloat.
    rewrite (svg_dimensions_viewBox Number parseFloat _ tabbedValue)
      by (vm_compute; reflexivity).
    reflexivity. }
  split; [exact E|].
  intros Number parseFloat. rewrite E. simpl. discriminate.
Qed.

(** C7, amended: the extractor prefers the leftmost match of the viewBox
    pattern; it splits the captured value at every single space and returns
    the third and fourth piece as converted by [Number], unchanged (NaN
    included), a missing piece giving [undefined].  With no viewBox match it
    returns [parseFloat] of the leftmost width and height matches, each
    taken independently and each falling back to 800 or 600 when absent.  So
    [svgViewBox] yields 120 by 80, [svgWidthHeight] 50 by 40 and [svgBare]
    800 by 600, and the call never fails. *)
Theorem svg_dimensions_by_pattern (Number parseFloat : jsstring -> float) :
  (forall (svgText viewBox : jsstring) (pieces : list jsstring),
      FirstMatch (lit "viewBox") svgText viewBox ->
      pieces <> [] -> Forall (fun t => ~ In space t) pieces ->
      viewBox = join space pieces ->
      Ffmpeg.getSVGDimensions Number parseFloat svgText
      = {| width := piece Number pieces 2; height := piece Number pieces 3 |})
  /\ (forall svgText : jsstring,
         NoMatch (lit "viewBox") svgText ->
         let d := Ffmpeg.getSVGDimensions Number parseFloat svgText in
         (forall w, FirstMatch (lit "width") svgText w ->
                    width d = JNumber (parseFloat w))
         /\ (NoMatch (lit "width") svgText -> width d = JNumber 800)
         /\ (forall h, FirstMatch (lit "height") svgText h ->
                       height d = JNumber (parseFloat h))
         /\ (NoMatch (lit "height") svgText -> height d = JNumber 600))
  /\ Ffmpeg.getSVGDimensions Number parseFloat svgViewBox
     = {| width := JNumber (Number (lit "120"));
          height := JNumber (Number (lit "80")) |}
  /\ Ffmpeg.getSVGDimensions Number parseFloat svgWidthHeight
     = {| width := JNumber (parseFloat (lit "50"));
          height := JNumber (parseFloat (lit "40")) |}
  /\ Ffmpeg.getSVGDimensions Number parseFloat svgBare
     = {| width := JNumber 800; height := JNumber 600 |}
  /\ (Number (lit "120") = 120%float -> Number (lit "80") = 80%float ->
      Ffmpeg.getSVGDimensions Number parseFloat svgViewBox
      = {| width := JNumber 120; height := JNumber 80 |})
  /\ (parseFloat (lit "50") = 50%float -> parseFloat (lit "40") = 40%float ->
      Ffmpeg.getSVGDimensions Number parseFloat svgWidthHeight
      = {| width := JNumber 50; height := JNumber 40 |})
  /\ (forall svgText : jsstring,
         extractSVG Number parseFloat svgText
         = Normal (Ffmpeg.getSVGDimensions Number parseFloat svgText)).
Proof.
  assert (E1 : Ffmpeg.getSVGDimensions Number parseFloat svgViewBox
               = {| width := JNumber (Number (lit "120"));
                    height := JNumber (Number (lit "80")) |}).
  { rewrite (svg_dimensions_viewBox Number parseFloat _ (lit "0 0 120 80"))
      by (vm_compute; reflexivity).
    reflexivity. }
  assert (E2 : Ffmpeg.getSVGDimensions Number parseFloat svgWidthHeight
               = {| width := JNumber (parseFloat (lit "50"));
                    height := JNumber (parseFloat (lit "40")) |}).
  { rewrite svg_dimensions_attributes by (vm_compute; reflexivity).
    reflexivity. }
  split; [|split; [|split; [|split; [|split; [|split; [|split]]]]]].
  - intros svgText viewBox pieces Hm Hne Hall ->.
    apply matchAttr_Some_iff in Hm.
    rewrite (svg_dimensions_viewBox Number parseFloat _ _ Hm).
    now rewrite (split_join space pieces Hne Hall).
  - intros svgText Hv d. subst d. apply matchAttr_None_iff in Hv.
    rewrite (svg_dimensions_attributes Number parseFloat _ Hv). simpl.
    repeat split.
    + intros w Hw. apply matchAttr_Some_iff in Hw. now rewrite Hw.
    + intros Hw. apply matchAttr_None_iff in Hw. now rewrite Hw.
    + intros h Hh. apply matchAttr_Some_iff in Hh. now rewrite Hh.
    + intros Hh. apply matchAttr_None_iff in Hh. now rewrite Hh.
  - exact E1.
  - exact E2.
  - rewrite svg_dimensions_attributes by (vm_compute; reflexivity).
    reflexivity.
  - intros H1 H2. now rewrite E1, H1, H2.
  - intros H1 H2. now rewrite E2, H1, H2.
  - reflexivity.
Qed.

Lemma svg_dimensions_by_pattern_witness :
  Ffmpeg.getSVGDimensions digitsNumber digitsNumber svgViewBox
  = {| width := JNumber 120; height := JNumber 80 |}
  /\ Ffmpeg.getSVGDimensions digitsNumber digitsNumber svgWidthHeight
     = {| width := JNumber 50; height := JNumber 40 |}
  /\ width (Ffmpeg.getSVGDimensions digitsNumber digitsNumber svgBare)
     = JNumber 800.
Proof.
  pose proof (svg_dimensions_by_pattern digitsNumber digitsNumber)
    as (_ & Hattr & _ & _ & _ & Hvb & Hwh & _).
  split; [apply Hvb; vm_compute; reflexivity|].
  split; [apply Hwh; vm_compute; reflexivity|].
  assert (Hv : NoMatch (lit "viewBox") svgBare)
    by (apply matchAttr_None_iff; vm_compute; reflexivity).
  apply (proj1 (proj2 (Hattr svgBare Hv))).
  apply matchAttr_None_iff. vm_compute. reflexivity.
Defined.

(** ** Sign of the dimensions *)

(** C9, as stated, fails on both paths: [zeroSizedGIF] yields 0 by 0, and
    the SVG text [svgTabbedViewBox] yields [undefined] dimensions, which are
    not positive numbers. *)
Lemma dimensions_not_always_positive :
  Ffmpeg.getGIFDimensions zeroSizedGIF = {| width := 0; height := 0 |}
  /\ ~ (0 < width (Ffmpeg.getGIFDimensions zeroSizedGIF)
        /\ 0 < height (Ffmpeg.getGIFDimensions zeroSizedGIF))
  /\ isPositive
       (width (Ffmpeg.getSVGDimensions digitsNumber digitsNumber
                 svgTabbedViewBox)) = false.
Proof.
  split; [reflexivity|]. split; [|vm_compute; reflexivity].
  change (Ffmpeg.getGIFDimensions zeroSizedGIF)
    with {| width := 0; height := 0 |}.
  simpl. lia.
Qed.

(** C9, amended: on the GIF path width and height are integers between 0
    and 65535, positive exactly when the two bytes they are formed from are
    not both zero, a missing byte counting as zero.  On the SVG path a
    dimension that falls back to its default, 800 or 600, is positive; the
    values converted from attributes are returned as they are. *)
Theorem dimensions_range_and_defaults :
  (forall view : Uint8Array,
      let d := Ffmpeg.getGIFDimensions view in
      0 <= width d <= 65535 /\ 0 <= height d <= 65535
      /\ (0 < width d <-> byteOrZero view 6 <> 0 \/ byteOrZero view 7 <> 0)
      /\ (0 < height d <-> byteOrZero view 8 <> 0 \/ byteOrZero view 9 <> 0))
  /\ (forall (Number parseFloat : jsstring -> float) (svgText : jsstring),
         NoMatch (lit "viewBox") svgText ->
         let d := Ffmpeg.getSVGDimensions Number parseFloat svgText in
         (NoMatch (lit "width") svgText ->
          width d = JNumber 800 /\ isPositive (width d) = true)
         /\ (NoMatch (lit "height") svgText ->
             height d = JNumber 600 /\ isPositive (height d) = true)).
Proof.
  split.
  - intros view d. subst d. rewrite getGIFDimensions_closed.
    cbn [width height].
    pose proof (byteOrZero_range view 6). pose proof (byteOrZero_range view 7).
    pose proof (byteOrZero_range view 8). pose proof (byteOrZero_range view 9).
    lia.
  - intros Number parseFloat svgText Hv d. subst d.
    apply matchAttr_None_iff in Hv.
    rewrite (svg_dimensions_attributes Number parseFloat _ Hv). simpl.
    split; intros H; apply matchAttr_None_iff in H; rewrite H;
      split; reflexivity.
Qed.

Lemma dimensions_range_and_defaults_witness :
  width (Ffmpeg.getSVGDimensions digitsNumber digitsNumber svgBare)
  = JNumber 800
  /\ isPositive
       (width (Ffmpeg.getSVGDimensions digitsNumber digitsNumber svgBare))
     = true.
Proof.
  assert (Hv : NoMatch (lit "viewBox") svgBare)
    by (apply matchAttr_None_iff; vm_compute; reflexivity).
  apply (proj1 (proj2 dimensions_range_and_defaults
                  digitsNumber digitsNumber svgBare Hv)).
  apply matchAttr_None_iff. vm_compute. reflexivity.
Defined.

(** * Further properties *)

(** ** The two GIF classifiers together *)

(** X1: whenever the block-aware classifier answers animated, so does the
    simple one. *)
Theorem strict_animated_implies_simple (view : Uint8Array) :
  Cloudinary.isAnimatedGIF view = true -> Ffmpeg.isAnimatedGIF view = true.
Proof.
  intros H. apply strict_true_iff in H.
  destruct H as (_ & p1 & _ & _ & Hr & Hm & _).
  unfold Ffmpeg.isAnimatedGIF. cbv zeta. apply simple_scan_true_iff.
  exists p1. split; [exact (Reach_le _ _ _ Hr)|exact Hm].
Qed.

Lemma strict_animated_implies_simple_witness :
  Ffmpeg.isAnimatedGIF blinkingGIF = true.
Proof.
  apply (strict_animated_implies_simple blinkingGIF). vm_compute. reflexivity.
Defined.

Lemma get_agree (v1 v2 : Uint8Array) (i : nat) :
  nth_error v1 i = nth_error v2 i -> get v1 i = get v2 i.
Proof. unfold get. now intros ->. Qed.

Lemma in_bounds_agree (v1 v2 : Uint8Array) (i : nat) :
  nth_error v1 i = nth_error v2 i ->
  (i < length v1)%nat <-> (i < length v2)%nat.
Proof.
  intros H. rewrite <- !nth_error_Some, H. reflexivity.
Qed.

Lemma strict_scan_agree (v1 v2 : Uint8Array) :
  (forall i, (13 <= i)%nat -> nth_error v1 i = nth_error v2 i) ->
  forall pos, (13 <= pos)%nat ->
  forall frames, Cloudinary.scan v1 frames pos = Cloudinary.scan v2 frames pos.
Proof.
  intros Hagree.
  assert (Hg : forall p, (13 <= p)%nat -> isGCE v1 p = isGCE v2 p).
  { intros p Hp. unfold isGCE.
    now rewrite (get_agree v1 v2 p), (get_agree v1 v2 (p + 1))
      by (apply Hagree; lia). }
  assert (Hd : forall p, (13 <= p)%nat ->
                         isImageDescriptor v1 p = isImageDescriptor v2 p).
  { intros p Hp. unfold isImageDescriptor.
    now rewrite (get_agree v1 v2 p) by (apply Hagree; lia). }
  apply (scan_position_ind v1
    (fun pos => (13 <= pos)%nat -> forall frames,
       Cloudinary.scan v1 frames pos = Cloudinary.scan v2 frames pos)).
  - intros pos Hend Hp frames.
    rewrite (strict_scan_unfold v1), (strict_scan_unfold v2).
    pose proof (in_bounds_agree v1 v2 pos (Hagree pos Hp)).
    destruct (lt_dec pos (length v1)), (lt_dec pos (length v2));
      try reflexivity; lia.
  - intros pos Hin IH Hp frames.
    rewrite (strict_scan_unfold v1), (strict_scan_unfold v2).
    pose proof (in_bounds_agree v1 v2 pos (Hagree pos Hp)).
    destruct (lt_dec pos (length v1)), (lt_dec pos (length v2)); try lia.
    rewrite (Hg pos Hp), (Hd pos Hp).
    rewrite (IH (pos + 8)%nat ltac:(lia) ltac:(lia)),
      (IH (pos + 11)%nat ltac:(lia) ltac:(lia)),
      (IH (pos + 1)%nat ltac:(lia) ltac:(lia)).
    reflexivity.
Qed.

Lemma simple_scan_agree (v1 v2 : Uint8Array) :
  (forall i, (13 <= i)%nat -> nth_error v1 i = nth_error v2 i) ->
  Ffmpeg.scan v1 13 = Ffmpeg.scan v2 13.
Proof.
  intros Hagree.
  assert (Hg : forall p, (13 <= p)%nat -> isGCE v1 p = isGCE v2 p).
  { intros p Hp. unfold isGCE.
    now rewrite (get_agree v1 v2 p), (get_agree v1 v2 (p + 1))
      by (apply Hagree; lia). }
  apply eq_true_iff_eq. rewrite !simple_scan_true_iff.
  split; intros (p & Hp & Hm); exists p; (split; [exact Hp|]);
    [rewrite <- Hg|rewrite Hg]; assumption.
Qed.

(** X2: the verdicts do not depend on bytes 3 to 12 of the buffer, the
    version and the logical screen descriptor; the simple classifier does
    not even look at the signature.  Two buffers that agree from offset 13
    on get the same verdict from the simple classifier, and from the
    block-aware one when they also agree on their first three bytes. *)
Theorem gif_verdict_ignores_header (v1 v2 : Uint8Array) :
  (forall i, (13 <= i)%nat -> nth_error v1 i = nth_error v2 i) ->
  Ffmpeg.isAnimatedGIF v1 = Ffmpeg.isAnimatedGIF v2
  /\ ((forall i, (i < 3)%nat -> nth_error v1 i = nth_error v2 i) ->
      Cloudinary.isAnimatedGIF v1 = Cloudinary.isAnimatedGIF v2).
Proof.
  intros Hagree. split.
  - unfold Ffmpeg.isAnimatedGIF. cbv zeta. now apply simple_scan_agree.
  - intros Hsig. unfold Cloudinary.isAnimatedGIF. cbv zeta.
    assert (Hb : Cloudinary.badHeader v1 = Cloudinary.badHeader v2).
    { unfold Cloudinary.badHeader.
      now rewrite (get_agree v1 v2 0), (get_agree v1 v2 1), (get_agree v1 v2 2)
        by (apply Hsig; lia). }
    rewrite Hb. destruct (Cloudinary.badHeader v2); [reflexivity|].
    apply (strict_scan_agree v1 v2 Hagree). simpl. lia.
Qed.

Lemma gif_verdict_ignores_header_witness :
  Ffmpeg.isAnimatedGIF blinkingGIF
  = Ffmpeg.isAnimatedGIF
      ([x47; x49; x46; x38; x37; x61; xff; xff; xff; xff; x00; x00; x00]
         ++ skipn 13 blinkingGIF)
  /\ Cloudinary.isAnimatedGIF blinkingGIF
     = Cloudinary.isAnimatedGIF
         ([x47; x49; x46; x38; x37; x61; xff; xff; xff; xff; x00; x00; x00]
            ++ skipn 13 blinkingGIF).
Proof.
  assert (H : forall i, (13 <= i)%nat ->
     nth_error blinkingGIF i
     = nth_error ([x47; x49; x46; x38; x37; x61; xff; xff; xff; xff; x00; x00; x00]
                    ++ skipn 13 blinkingGIF) i).
  { intros i Hi. do 13 (destruct i as [|i]; [lia|]). reflexivity. }
  destruct (gif_verdict_ignores_header _ _ H) as [H1 H2].
  split; [exact H1|]. apply H2.
  intros i Hi. do 3 (destruct i as [|i]; [reflexivity|]). lia.
Defined.

(** ** SVG animation, once more *)

Lemma includes_prefix (s p q : jsstring) :
  includes s (p ++ q) = true -> includes s p = true.
Proof.
  rewrite !includes_iff. intros (pre & post & ->).
  exists pre, (q ++ post). now rewrite <- app_assoc.
Qed.

(** X3: two of the four listed tags decide the verdict: a text is animated
    exactly when it contains [<animate] or [<set]; the entries
    [<animateTransform] and [<animateMotion] never change the answer. *)
Theorem svg_two_tags_decide (svgText : jsstring) :
  Ffmpeg.isAnimatedSVG svgText
  = includes svgText (lit "<animate") || includes svgText (lit "<set")
  /\ Cloudinary.isAnimatedSVG svgText
     = includes svgText (lit "<animate") || includes svgText (lit "<set").
Proof.
  pose proof (includes_prefix svgText (lit "<animate") (lit "Transform")) as HT.
  pose proof (includes_prefix svgText (lit "<animate") (lit "Motion")) as HM.
  change (lit "<animate" ++ lit "Transform") with (lit "<animateTransform") in HT.
  change (lit "<animate" ++ lit "Motion") with (lit "<animateMotion") in HM.
  unfold Ffmpeg.isAnimatedSVG, Cloudinary.isAnimatedSVG,
    Ffmpeg.animationElements, Cloudinary.animationElements.
  cbn [existsb].
  destruct (includes svgText (lit "<animate")),
    (includes svgText (lit "<animateTransform")),
    (includes svgText (lit "<animateMotion")),
    (includes svgText (lit "<set"));
    try (split; reflexivity);
    try (specialize (HT eq_refl); discriminate);
    try (specialize (HM eq_refl); discriminate).
Qed.

(** ** Strings *)

Lemma strEq_iff (a b : jsstring) : strEq a b = true <-> a = b.
Proof.
  revert b. induction a as [|x a IH]; intros [|y b]; simpl;
    try (split; [discriminate|discriminate]); [split; reflexivity|].
  rewrite andb_true_iff, N.eqb_eq, IH. split.
  - now intros [-> ->].
  - now intros [= -> ->].
Qed.

Lemma strEq_refl (a : jsstring) : strEq a a = true.
Proof. now apply strEq_iff. Qed.

Lemma strEq_neq (a b : jsstring) : a <> b -> strEq a b = false.
Proof.
  intros H. destruct (strEq a b) eqn:E; [|reflexivity].
  apply strEq_iff in E. contradiction.
Qed.

Lemma join_snoc (sep : N) (pieces : list jsstring) (t : jsstring) :
  pieces <> [] -> join sep (pieces ++ [t]) = join sep pieces ++ sep :: t.
Proof.
  induction pieces as [|u us IH]; intros Hne; [contradiction|].
  destruct us as [|u' us'].
  - reflexivity.
  - change (join sep ((u :: u' :: us') ++ [t]))
      with (u ++ sep :: join sep ((u' :: us') ++ [t])).
    rewrite IH by discriminate.
    change (join sep (u :: u' :: us')) with (u ++ sep :: join sep (u' :: us')).
    now rewrite <- app_assoc.
Qed.

Lemma pop_snoc (pieces : list jsstring) (t : jsstring) :
  pop (pieces ++ [t]) = Some t.
Proof.
  induction pieces as [|u us IH]; [reflexivity|].
  simpl. destruct (us ++ [t]) eqn:E; [|exact IH].
  destruct us; discriminate.
Qed.

Lemma split_without_sep (sep : N) (s : jsstring) :
  ~ In sep s -> split sep s = [s].
Proof.
  intros H. apply (split_join sep [s]); [discriminate|].
  constructor; [exact H|constructor].
Qed.

(** The pieces of a string whose last separator is known. *)
Lemma split_last_piece (sep : N) (pre ext : jsstring) :
  ~ In sep ext -> split sep (pre ++ sep :: ext) = split sep pre ++ [ext].
Proof.
  intros H. destruct (join_split sep pre) as [Hj Hf].
  rewrite <- Hj at 1.
  rewrite <- (join_snoc sep (split sep pre) ext (split_nonempty sep pre)).
  apply split_join.
  - destruct (split sep pre); discriminate.
  - apply Forall_app. split; [exact Hf|]. constructor; [exact H|constructor].
Qed.

(** ** The format of a URL or file name *)

Lemma formatOf_pop (toLowerCase : jsstring -> jsstring) (x last : jsstring) :
  pop (split dot x) = Some last ->
  Upload.formatOf toLowerCase x = toLowerCase last.
Proof.
  intros H. unfold Upload.formatOf. rewrite H.
  destruct (toLowerCase last); reflexivity.
Qed.

Lemma formatOf_without_dot (toLowerCase : jsstring -> jsstring) (x : jsstring) :
  ~ In dot x -> Upload.formatOf toLowerCase x = toLowerCase x.
Proof.
  intros H. apply formatOf_pop. now rewrite split_without_sep.
Qed.

Lemma formatOf_after_dot (toLowerCase : jsstring -> jsstring)
  (pre ext : jsstring) :
  ~ In dot ext ->
  Upload.formatOf toLowerCase (pre ++ dot :: ext) = toLowerCase ext.
Proof.
  intros H. apply formatOf_pop.
  rewrite (split_last_piece dot pre ext H). apply pop_snoc.
Qed.

(** X4: the format is the lowercased text after the last dot of the URL or
    file name, and the lowercased whole when there is no dot at all; what
    precedes the last dot plays no role. *)
Theorem format_is_text_after_last_dot (toLowerCase : jsstring -> jsstring) :
  (forall x : jsstring,
      ~ In dot x -> Upload.formatOf toLowerCase x = toLowerCase x)
  /\ (forall pre ext : jsstring,
         ~ In dot ext ->
         Upload.formatOf toLowerCase (pre ++ dot :: ext) = toLowerCase ext).
Proof.
  split; [apply formatOf_without_dot|apply formatOf_after_dot].
Qed.

Lemma format_is_text_after_last_dot_witness :
  Upload.formatOf (List.map asciiLower) (lit "https://host/a.b/Logo.GIF")
  = lit "gif".
Proof.
  apply (proj2 (format_is_text_after_last_dot (List.map asciiLower))
           (lit "https://host/a.b/Logo") (lit "GIF")).
  vm_compute. intuition discriminate.
Defined.

Lemma supported_iff (f : jsstring) :
  Upload.supported f = true <-> f = lit "svg" \/ f = lit "gif".
Proof.
  unfold Upload.supported, arrayIncludes. cbn [existsb].
  rewrite !orb_true_iff, !strEq_iff. intuition congruence.
Qed.

(** X5: with [toLowerCase] acting on ASCII text as it does, a name whose
    text after the last dot is ASCII is supported exactly when that text
    is svg or gif in any letter case.  In particular anything that follows
    the extension, such as a query string, makes the name unsupported: a
    supported extension has exactly three units. *)
Theorem supported_iff_extension_svg_or_gif
  (toLowerCase : jsstring -> jsstring)
  (Hascii : forall s, forallb isASCII s = true ->
                      toLowerCase s = List.map asciiLower s)
  (pre ext : jsstring) :
  ~ In dot ext -> forallb isASCII ext = true ->
  (Upload.supported (Upload.formatOf toLowerCase (pre ++ dot :: ext)) = true
   <-> List.map asciiLower ext = lit "svg" \/ List.map asciiLower ext = lit "gif")
  /\ (length ext <> 3%nat ->
      Upload.supported (Upload.formatOf toLowerCase (pre ++ dot :: ext)) = false).
Proof.
  intros Hdot Hasc.
  rewrite (formatOf_after_dot toLowerCase pre ext Hdot).
  rewrite (Hascii ext Hasc).
  split; [apply supported_iff|].
  intros Hlen.
  destruct (Upload.supported (List.map asciiLower ext)) eqn:E; [|reflexivity].
  apply supported_iff in E.
  assert (L : length (List.map asciiLower ext) = 3%nat)
    by (destruct E as [-> | ->]; reflexivity).
  rewrite length_map in L. contradiction.
Qed.

Lemma supported_iff_extension_svg_or_gif_witness :
  Upload.supported
    (Upload.formatOf (List.map asciiLower) (lit "https://host/anim.gif?v=2"))
  = false.
Proof.
  apply (proj2 (supported_iff_extension_svg_or_gif (List.map asciiLower)
                  (fun s _ => eq_refl)
                  (lit "https://host/anim") (lit "gif?v=2")
                  ltac:(vm_compute; intuition discriminate) eq_refl)).
  vm_compute. discriminate.
Defined.

(** ** Replacing the extension of the uploaded file's URL *)

Lemma extensionAt_cons (c : N) (rest : jsstring) :
  Upload.extensionAt (c :: rest) = (c =? dot)%N && isExtension rest.
Proof. destruct rest; reflexivity. Qed.

Lemma isExtension_forall (ext : jsstring) :
  isExtension ext = true -> forallb Upload.inExtensionClass ext = true.
Proof. destruct ext; [discriminate|trivial]. Qed.

Lemma isExtension_with (c : N) (pre post : jsstring) :
  Upload.inExtensionClass c = false -> isExtension (pre ++ c :: post) = false.
Proof.
  intros Hc. destruct (isExtension (pre ++ c :: post)) eqn:E; [|reflexivity].
  apply isExtension_forall in E. rewrite forallb_app in E.
  apply andb_true_iff in E. destruct E as [_ E]. simpl in E.
  rewrite Hc in E. discriminate.
Qed.

Lemma replaceExtension_cons (r : jsstring) (c : N) (s : jsstring) :
  Upload.extensionAt (c :: s) = false ->
  Upload.replaceExtension r (c :: s) = c :: Upload.replaceExtension r s.
Proof.
  intros H. change (Upload.replaceExtension r (c :: s))
    with (if Upload.extensionAt (c :: s) then r
          else c :: Upload.replaceExtension r s).
  now rewrite H.
Qed.

Lemma replaceExtension_match (r pre ext : jsstring) :
  isExtension ext = true ->
  Upload.replaceExtension r (pre ++ dot :: ext) = pre ++ r.
Proof.
  intros H. induction pre as [|c pre IH].
  - change (Upload.replaceExtension r ([] ++ dot :: ext))
      with (if Upload.extensionAt (dot :: ext) then r
            else dot :: Upload.replaceExtension r ext).
    rewrite extensionAt_cons, H. reflexivity.
  - cbn [app]. rewrite replaceExtension_cons, IH; [reflexivity|].
    rewrite extensionAt_cons, (isExtension_with dot pre ext eq_refl).
    apply andb_false_r.
Qed.

Lemma replaceExtension_through (r : jsstring) (c : N) (pre post : jsstring) :
  Upload.inExtensionClass c = false ->
  Upload.replaceExtension r (pre ++ c :: post)
  = pre ++ Upload.replaceExtension r (c :: post).
Proof.
  intros Hc. induction pre as [|x pre IH]; [reflexivity|].
  cbn [app]. rewrite replaceExtension_cons, IH; [reflexivity|].
  rewrite extensionAt_cons, (isExtension_with c pre post Hc).
  apply andb_false_r.
Qed.

(** Either the string ends with an extension, or [replace] leaves it as
    it is. *)
Lemma replaceExtension_cases (s : jsstring) :
  (exists pre ext, s = pre ++ dot :: ext /\ isExtension ext = true)
  \/ (forall r, Upload.replaceExtension r s = s).
Proof.
  induction s as [|c s IH].
  - right. reflexivity.
  - destruct (Upload.extensionAt (c :: s)) eqn:E.
    + left. rewrite extensionAt_cons in E. apply andb_true_iff in E.
      destruct E as [Hc He]. apply N.eqb_eq in Hc. subst c.
      now exists [], s.
    + destruct IH as [(pre & ext & -> & He)|IH].
      * left. now exists (c :: pre), ext.
      * right. intros r. now rewrite replaceExtension_cons, IH.
Qed.

Lemma replaceExtension_no_match (r s : jsstring) :
  (forall pre ext, s = pre ++ dot :: ext -> isExtension ext = false) ->
  Upload.replaceExtension r s = s.
Proof.
  intros H. destruct (replaceExtension_cases s) as [(pre & ext & E & He)|N].
  - rewrite (H pre ext E) in He. discriminate.
  - apply N.
Qed.

Lemma dot_free_not_split (s pre ext : jsstring) :
  ~ In dot s -> s <> pre ++ dot :: ext.
Proof.
  intros H ->. apply H. apply in_or_app. right. now left.
Qed.

(** X6: on a URL that ends with a dot followed by a non-empty run of
    units other than slash and dot, [replace] puts the new extension in
    place of that ending and keeps everything before it. *)
Theorem replace_swaps_final_extension (r pre ext : jsstring) :
  isExtension ext = true ->
  Upload.replaceExtension r (pre ++ dot :: ext) = pre ++ r.
Proof. apply replaceExtension_match. Qed.

Lemma replace_swaps_final_extension_witness :
  Upload.replaceExtension (lit ".mp4")
    (lit "https://res.host/v1.2/image/upload/abc.gif")
  = lit "https://res.host/v1.2/image/upload/abc.mp4".
Proof.
  apply (replace_swaps_final_extension (lit ".mp4")
           (lit "https://res.host/v1.2/image/upload/abc") (lit "gif")).
  reflexivity.
Defined.

(** X7: a URL without such an ending is returned unchanged, so the
    answer then carries no [.mp4] or [.png]: this happens when the URL
    holds no dot, when it ends with a dot, and when its last path segment
    holds no dot. *)
Theorem replace_keeps_url_without_extension (r : jsstring) :
  (forall s, ~ In dot s -> Upload.replaceExtension r s = s)
  /\ (forall pre, Upload.replaceExtension r (pre ++ [dot]) = pre ++ [dot])
  /\ (forall dir file,
         ~ In dot file ->
         Upload.replaceExtension r (dir ++ slash :: file) = dir ++ slash :: file).
Proof.
  split; [|split].
  - intros s H. apply replaceExtension_no_match. intros pre ext E.
    exfalso. exact (dot_free_not_split s pre ext H E).
  - intros pre. induction pre as [|c pre IH]; [reflexivity|].
    cbn [app]. rewrite replaceExtension_cons, IH; [reflexivity|].
    rewrite extensionAt_cons.
    destruct pre as [|c' pre']; [cbn; apply andb_false_r|].
    rewrite (isExtension_with dot (c' :: pre') [] eq_refl).
    apply andb_false_r.
  - intros dir file H.
    rewrite (replaceExtension_through r slash dir file eq_refl).
    f_equal. rewrite replaceExtension_cons by reflexivity. f_equal.
    apply replaceExtension_no_match. intros pre ext E.
    exfalso. exact (dot_free_not_split file pre ext H E).
Qed.

Lemma replace_keeps_url_without_extension_witness :
  Upload.replaceExtension (lit ".mp4") (lit "https://res.host/v1.2/upload/abc")
  = lit "https://res.host/v1.2/upload/abc".
Proof.
  apply (proj2 (proj2 (replace_keeps_url_without_extension (lit ".mp4")))
           (lit "https://res.host/v1.2/upload") (lit "abc")).
  vm_compute. intuition discriminate.
Defined.

(** X8: [replace] never touches the URL up to its last slash: scheme, host
    and directories are kept, and only the last path segment can change. *)
Theorem replace_keeps_directory (r dir file : jsstring) :
  Upload.replaceExtension r (dir ++ slash :: file)
  = dir ++ slash :: Upload.replaceExtension r file.
Proof.
  rewrite (replaceExtension_through r slash dir file eq_refl).
  now rewrite replaceExtension_cons by reflexivity.
Qed.

(** X9: replacing twice is replacing once with the last extension: for a
    first replacement that is itself a dot and an extension, such as
    [.mp4] and [.png], the second replacement alone decides the result; in
    particular each replacement is idempotent. *)
Theorem replace_twice_is_last (e1 r2 s : jsstring) :
  isExtension e1 = true ->
  Upload.replaceExtension r2 (Upload.replaceExtension (dot :: e1) s)
  = Upload.replaceExtension r2 s.
Proof.
  intros H1. destruct (replaceExtension_cases s) as [(pre & ext & -> & He)|N].
  - rewrite (replaceExtension_match (dot :: e1) pre ext He).
    now rewrite (replaceExtension_match r2 pre e1 H1),
      (replaceExtension_match r2 pre ext He).
  - now rewrite (N (dot :: e1)).
Qed.

Lemma replace_twice_is_last_witness :
  Upload.replaceExtension (lit ".png")
    (Upload.replaceExtension (lit ".mp4") (lit "https://res.host/abc.gif"))
  = Upload.replaceExtension (lit ".png") (lit "https://res.host/abc.gif").
Proof.
  apply (replace_twice_is_last (lit "mp4") (lit ".png")
           (lit "https://res.host/abc.gif")).
  reflexivity.
Defined.

(** ** The hexadecimal signature *)

Lemma hex_of_byte (b : byte) :
  exists hi lo,
    padStart 2 digitZero (toString16 b) = [hi; lo]
    /\ isLowerHex hi = true /\ isLowerHex lo = true
    /\ Byte.of_N (16 * hexValue hi + hexValue lo) = Some b.
Proof.
  assert (C : match padStart 2 digitZero (toString16 b) with
              | [hi; lo] =>
                  isLowerHex hi && isLowerHex lo
                  && match Byte.of_N (16 * hexValue hi + hexValue lo) with
                     | Some b' => Byte.eqb b b'
                     | None => false
                     end
              | _ => false
              end = true)
    by (destruct b; vm_compute; reflexivity).
  destruct (padStart 2 digitZero (toString16 b)) as [|hi [|lo [|? ?]]];
    try discriminate.
  exists hi, lo. apply andb_true_iff in C. destruct C as [C Hb].
  apply andb_true_iff in C. destruct C as [Hh Hl].
  destruct (Byte.of_N (16 * hexValue hi + hexValue lo)) as [b'|];
    [|discriminate].
  apply Byte.byte_dec_bl in Hb. subst b'. repeat split; assumption.
Qed.

Lemma hexOf_cons (b : byte) (l : list byte) :
  Upload.hexOf (b :: l) = padStart 2 digitZero (toString16 b) ++ Upload.hexOf l.
Proof. reflexivity. Qed.

Lemma hexOf_length (l : list byte) :
  length (Upload.hexOf l) = (2 * length l)%nat.
Proof.
  induction l as [|b l IH]; [reflexivity|].
  rewrite hexOf_cons. destruct (hex_of_byte b) as (hi & lo & -> & _).
  simpl in *. lia.
Qed.

Lemma hexOf_digits (l : list byte) :
  forallb isLowerHex (Upload.hexOf l) = true.
Proof.
  induction l as [|b l IH]; [reflexivity|].
  rewrite hexOf_cons. destruct (hex_of_byte b) as (hi & lo & -> & Hh & Hl & _).
  cbn [app forallb]. now rewrite Hh, Hl, IH.
Qed.

Lemma hexDecode_hexOf (l : list byte) :
  hexDecode (Upload.hexOf l) = Some l.
Proof.
  induction l as [|b l IH]; [reflexivity|].
  rewrite hexOf_cons. destruct (hex_of_byte b) as (hi & lo & -> & _ & _ & Hb).
  cbn [app hexDecode]. now rewrite Hb, IH.
Qed.

(** X10: the signature is the digest written in lowercase hexadecimal,
    two digits for every byte, the high one first and padded with zero: it
    has twice as many units as the digest has bytes, 40 for the 20 bytes of
    SHA-1, and every unit is one of 0-9 or a-f. *)
Theorem signature_is_lowercase_hex
  (encode : jsstring -> list byte) (digestSHA1 : list byte -> list byte)
  (params : object) (env : Upload.Env) :
  let signature := Upload.generateSignature encode digestSHA1 params env in
  length signature
  = (2 * length (digestSHA1 (encode (Upload.stringToSign params env))))%nat
  /\ forallb isLowerHex signature = true
  /\ ((forall data, length (digestSHA1 data) = 20%nat) ->
      length signature = 40%nat).
Proof.
  intros signature. subst signature. unfold Upload.generateSignature.
  cbv zeta. split; [apply hexOf_length|]. split; [apply hexOf_digits|].
  intros H. now rewrite hexOf_length, H.
Qed.

Lemma signature_is_lowercase_hex_witness :
  length (Upload.generateSignature (fun _ => []) (fun _ => repeat xa5 20)
            [] (Upload.Build_Env [] [] []))
  = 40%nat.
Proof.
  apply (signature_is_lowercase_hex (fun _ => []) (fun _ => repeat xa5 20)
           [] (Upload.Build_Env [] [] [])).
  intros data. reflexivity.
Defined.

(** X11: the hexadecimal rendering loses nothing: the digest bytes can be
    read back from it, so two different digests never give the same
    signature text. *)
Theorem hex_rendering_is_injective (l1 l2 : list byte) :
  hexDecode (Upload.hexOf l1) = Some l1
  /\ (Upload.hexOf l1 = Upload.hexOf l2 -> l1 = l2).
Proof.
  split; [apply hexDecode_hexOf|].
  intros H. pose proof (hexDecode_hexOf l1) as H1.
  rewrite H, hexDecode_hexOf in H1. congruence.
Qed.

Lemma hex_rendering_is_injective_witness :
  hexDecode (Upload.hexOf [x00; x0f; xa5]) = Some [x00; x0f; xa5].
Proof.
  apply (proj1 (hex_rendering_is_injective [x00; x0f; xa5] [])).
Defined.

(** ** The order of the signed parameters *)

Lemma strLt_irrefl (a : jsstring) : strLt a a = false.
Proof.
  induction a as [|x a IH]; [reflexivity|].
  simpl. now rewrite N.ltb_irrefl, N.eqb_refl, IH.
Qed.

Lemma strLt_trans (a b c : jsstring) :
  strLt a b = true -> strLt b c = true -> strLt a c = true.
Proof.
  revert b c. induction a as [|x a IH]; intros [|y b] [|z c]; simpl;
    try discriminate; try reflexivity.
  rewrite !orb_true_iff, !andb_true_iff, !N.ltb_lt, !N.eqb_eq.
  intros [H1|[-> H1]] [H2|[-> H2]].
  - left. lia.
  - now left.
  - now left.
  - right. split; [reflexivity|]. exact (IH b c H1 H2).
Qed.

Lemma strLt_total (a b : jsstring) :
  strLt a b = false -> strLt b a = false -> a = b.
Proof.
  revert b. induction a as [|x a IH]; intros [|y b]; simpl;
    try discriminate; [reflexivity|].
  rewrite !orb_false_iff, !andb_false_iff, !N.ltb_ge, !N.eqb_neq.
  intros [H1 H1'] [H2 H2'].
  assert (x = y) by lia. subst y. f_equal.
  apply IH; [destruct H1'|destruct H2']; congruence.
Qed.

Lemma strLt_asym (a b : jsstring) : strLt a b = true -> strLt b a = false.
Proof.
  intros H. destruct (strLt b a) eqn:E; [|reflexivity].
  pose proof (strLt_trans a b a H E) as C. rewrite strLt_irrefl in C.
  discriminate.
Qed.

Lemma strLt_below (z x y : jsstring) :
  strLt z x = false -> strLt z y = true -> strLt x y = true.
Proof.
  intros Hzx Hzy. destruct (strLt x y) eqn:E; [reflexivity|].
  destruct (strLt y x) eqn:E'.
  - pose proof (strLt_trans z y x Hzy E'). congruence.
  - pose proof (strLt_total x y E E'). subst y. congruence.
Qed.

Lemma insertSorted_comm (x y : jsstring) (l : list jsstring) :
  insertSorted x (insertSorted y l) = insertSorted y (insertSorted x l).
Proof.
  induction l as [|z l IH]; simpl.
  - destruct (strLt y x) eqn:Eyx, (strLt x y) eqn:Exy; try reflexivity.
    + pose proof (strLt_asym y x Eyx). congruence.
    + now rewrite (strLt_total x y Exy Eyx).
  - destruct (strLt z y) eqn:Ezy, (strLt z x) eqn:Ezx; simpl;
      rewrite ?Ezy, ?Ezx.
    + now rewrite IH.
    + now rewrite (strLt_below z x y Ezx Ezy).
    + now rewrite (strLt_below z y x Ezy Ezx).
    + destruct (strLt y x) eqn:Eyx, (strLt x y) eqn:Exy; simpl;
        rewrite ?Ezy, ?Ezx; try reflexivity.
      * pose proof (strLt_asym y x Eyx). congruence.
      * now rewrite (strLt_total x y Exy Eyx).
Qed.

(** The sorted array depends on the elements only, not on their order. *)
Lemma sort_permutation (l l' : list jsstring) :
  Permutation l l' -> sort l = sort l'.
Proof.
  induction 1 as [|x l l' _ IH|x y l|l l' l'' _ IH1 _ IH2]; simpl.
  - reflexivity.
  - now rewrite IH.
  - apply insertSorted_comm.
  - now rewrite IH1.
Qed.

Lemma objGet_permutation (o o' : object) (key : jsstring) :
  NoDup (List.map fst o) -> Permutation o o' -> objGet o key = objGet o' key.
Proof.
  intros Hnd Hp. induction Hp as [|[k v] l l' Hp IH|[k1 v1] [k2 v2] l
                                 |l l' l'' Hp1 IH1 Hp2 IH2].
  - reflexivity.
  - simpl. inversion Hnd; subst. now rewrite IH.
  - simpl. destruct (strEq k1 key) eqn:E1, (strEq k2 key) eqn:E2;
      try reflexivity.
    apply strEq_iff in E1, E2. subst. inversion Hnd as [|? ? Hin _]; subst.
    exfalso. apply Hin. now left.
  - rewrite IH1 by exact Hnd. apply IH2.
    apply (Permutation_NoDup (Permutation_map fst Hp1) Hnd).
Qed.

Lemma fold_left_agree {A B : Type} (f g : A -> B -> A) (l : list B) (a : A) :
  (forall a b, f a b = g a b) -> fold_left f l a = fold_left g l a.
Proof.
  intros H. revert a. induction l as [|b l IH]; intros a; simpl;
    [reflexivity|]. now rewrite H, IH.
Qed.

(** X12: the signature does not depend on the order in which the
    parameters are written in the object: two objects with the same
    properties, listed in any order, are signed alike. *)
Theorem signature_ignores_parameter_order
  (encode : jsstring -> list byte) (digestSHA1 : list byte -> list byte)
  (params params' : object) (env : Upload.Env) :
  NoDup (List.map fst params) -> Permutation params params' ->
  Upload.stringToSign params env = Upload.stringToSign params' env
  /\ Upload.generateSignature encode digestSHA1 params env
     = Upload.generateSignature encode digestSHA1 params' env.
Proof.
  intros Hnd Hp.
  assert (E : Upload.stringToSign params env = Upload.stringToSign params' env).
  { unfold Upload.stringToSign, Upload.sortedParams.
    rewrite (sort_permutation _ _ (Permutation_map fst Hp)).
    rewrite (fold_left_agree
               (fun acc key => objSet acc key (objGet params key))
               (fun acc key => objSet acc key (objGet params' key)));
      [reflexivity|].
    intros acc key. now rewrite (objGet_permutation params params' key Hnd Hp). }
  split; [exact E|]. unfold Upload.generateSignature. cbv zeta. now rewrite E.
Qed.

Lemma signature_ignores_parameter_order_witness :
  Upload.stringToSign
    [(lit "timestamp", VInteger 5); (lit "api_key", VString (lit "k"))]
    (Upload.Build_Env [] (lit "s") [])
  = Upload.stringToSign
      [(lit "api_key", VString (lit "k")); (lit "timestamp", VInteger 5)]
      (Upload.Build_Env [] (lit "s") []).
Proof.
  apply (signature_ignores_parameter_order (fun _ => []) (fun l => l)
           [(lit "timestamp", VInteger 5); (lit "api_key", VString (lit "k"))]
           [(lit "api_key", VString (lit "k")); (lit "timestamp", VInteger 5)]
           (Upload.Build_Env [] (lit "s") [])).
  - repeat constructor; vm_compute; intuition discriminate.
  - apply perm_swap.
Defined.

(** ** What is signed and sent *)

Lemma sortedParams_upload (timestamp : N) (env : Upload.Env) :
  Upload.sortedParams (Upload.uploadParams timestamp env)
  = [(lit "api_key", VString (Upload.CLOUDINARY_API_KEY env));
     (lit "resource_type", VString (lit "auto"));
     (lit "timestamp", VInteger timestamp);
     (lit "upload_preset", VString (lit "ml_default"))].
Proof. reflexivity. Qed.

Lemma sortedParams_upload_earlier (timestamp : N) (env : Upload.Env) :
  Upload.sortedParams (Upload.uploadParamsEarlier timestamp env)
  = [(lit "api_key", VString (Upload.CLOUDINARY_API_KEY env));
     (lit "timestamp", VInteger timestamp);
     (lit "upload_preset", VString (lit "ml_default"))].
Proof. reflexivity. Qed.

(** X13: the text signed for an upload lists the parameters in the order
    of their names, each as name=value, joined by ampersands, and ends with
    the API secret appended without any separator; the values are written
    as they are, without escaping. *)
Theorem upload_string_to_sign (timestamp : N) (env : Upload.Env) :
  Upload.stringToSign (Upload.uploadParams timestamp env) env
  = lit "api_key=" ++ Upload.CLOUDINARY_API_KEY env
      ++ lit "&resource_type=auto&timestamp=" ++ decimal timestamp
      ++ lit "&upload_preset=ml_default" ++ Upload.CLOUDINARY_API_SECRET env
  /\ Upload.stringToSign (Upload.uploadParamsEarlier timestamp env) env
     = lit "api_key=" ++ Upload.CLOUDINARY_API_KEY env
         ++ lit "&timestamp=" ++ decimal timestamp
         ++ lit "&upload_preset=ml_default" ++ Upload.CLOUDINARY_API_SECRET env.
Proof.
  unfold Upload.stringToSign.
  rewrite sortedParams_upload, sortedParams_upload_earlier.
  cbn [List.map join fst snd toString].
  split; repeat (rewrite <- ?app_assoc; cbn [app]); reflexivity.
Qed.

(** ** The upload *)

Lemma upload_normal
  (encode : jsstring -> list byte) (digestSHA1 : list byte -> list byte)
  (now : N) (post : Upload.UploadRequest -> completion thrown Upload.FetchResponse)
  (file : Uint8Array) (format : jsstring) (env : Upload.Env)
  (isAnimated : bool) (r : Upload.CloudinaryResponse) :
  Upload.uploadToCloudinary encode digestSHA1 now post file format isAnimated env
  = Normal r ->
  Upload.format r = (if isAnimated then lit "mp4" else lit "png")
  /\ Upload.resource_type r = (if isAnimated then lit "video" else lit "image")
  /\ exists request response result,
       post request = Normal response /\ Upload.ok response = true
       /\ Upload.json response = Normal result
       /\ Upload.secure_url r
          = Upload.replaceExtension (dot :: Upload.format r)
              (Upload.result_secure_url result).
Proof.
  unfold Upload.uploadToCloudinary. cbv zeta.
  set (request := Upload.Build_UploadRequest _ _ _ _).
  destruct (post request) as [response|e] eqn:Ep;
    cbn [Upload.bind]; [|discriminate].
  destruct (Upload.ok response) eqn:Eok; cbn [negb].
  - destruct (Upload.json response) as [result|e] eqn:Ej;
      cbn [Upload.bind]; [|discriminate].
    destruct isAnimated; intros [= <-]; cbn;
      (split; [reflexivity|]); (split; [reflexivity|]);
      exists request, response, result; repeat split; assumption.
  - destruct (Upload.text response); cbn [Upload.bind]; discriminate.
Qed.

(** X14: the outcome of an upload.  A normal result has format mp4 and
    resource type video for an animated input, png and image otherwise,
    and its URL is the URL of an accepted upload with the extension
    replaced accordingly.  A response that is not ok always ends in a
    thrown error, whose message quotes the status text and the body.  The
    animation flag has no influence on whether and what the upload
    throws. *)
Theorem upload_outcome
  (encode : jsstring -> list byte) (digestSHA1 : list byte -> list byte)
  (now : N) (post : Upload.UploadRequest -> completion thrown Upload.FetchResponse)
  (file : Uint8Array) (format : jsstring) (env : Upload.Env) :
  let upload := Upload.uploadToCloudinary encode digestSHA1 now post file format in
  (forall isAnimated r,
      upload isAnimated env = Normal r ->
      Upload.format r = (if isAnimated then lit "mp4" else lit "png")
      /\ Upload.resource_type r = (if isAnimated then lit "video" else lit "image")
      /\ exists request response result,
           post request = Normal response /\ Upload.ok response = true
           /\ Upload.json response = Normal result
           /\ Upload.secure_url r
              = Upload.replaceExtension (dot :: Upload.format r)
                  (Upload.result_secure_url result))
  /\ (forall isAnimated response,
         (forall request, post request = Normal response) ->
         Upload.ok response = false ->
         exists e, upload isAnimated env = Throw e
                   /\ forall t, Upload.text response = Normal t ->
                        e = ThrownError
                              (lit "Cloudinary upload failed: "
                                 ++ Upload.statusText response ++ lit " - " ++ t))
  /\ (forall e, upload true env = Throw e <-> upload false env = Throw e).
Proof.
  intros upload. subst upload.
  split; [intros isAnimated r; apply upload_normal|].
  unfold Upload.uploadToCloudinary. cbv zeta.
  set (request := Upload.Build_UploadRequest _ _ _ _).
  split.
  - intros isAnimated response Hp Hok. rewrite (Hp request).
    cbn [Upload.bind]. rewrite Hok. cbn [negb].
    destruct (Upload.text response) as [t|e]; cbn [Upload.bind].
    + eexists. split; [reflexivity|]. now intros t' [= <-].
    + exists e. split; [reflexivity|]. discriminate.
  - intros e. destruct (post request) as [response|e']; cbn [Upload.bind];
      [|reflexivity].
    destruct (Upload.ok response); cbn [negb].
    + destruct (Upload.json response); cbn [Upload.bind];
        [split; discriminate|reflexivity].
    + reflexivity.
Qed.

Lemma upload_outcome_witness :
  exists e,
    Upload.uploadToCloudinary (fun _ => []) (fun l => l) 0
      (fun _ => Normal (Upload.Build_FetchResponse false (lit "Unauthorized")
                          (Normal (lit "bad signature")) (Throw ThrownOther)
                          (Throw ThrownOther)))
      [] (lit "gif") true (Upload.Build_Env [] [] [])
    = Throw e
    /\ forall t, @Normal thrown jsstring (lit "bad signature") = Normal t ->
         e = ThrownError (lit "Cloudinary upload failed: "
                            ++ lit "Unauthorized" ++ lit " - " ++ t).
Proof.
  apply (proj1 (proj2 (upload_outcome (fun _ => []) (fun l => l) 0
           (fun _ => Normal (Upload.Build_FetchResponse false (lit "Unauthorized")
                               (Normal (lit "bad signature")) (Throw ThrownOther)
                               (Throw ThrownOther)))
           [] (lit "gif") (Upload.Build_Env [] [] []))) true
           (Upload.Build_FetchResponse false (lit "Unauthorized")
              (Normal (lit "bad signature")) (Throw ThrownOther)
              (Throw ThrownOther))).
  - intros request. reflexivity.
  - reflexivity.
Defined.

(** ** Conversion by URL *)

Lemma detectAnimated_true (decode : Uint8Array -> jsstring)
  (format : jsstring) (fileBuffer : Uint8Array) :
  Upload.detectAnimated decode format fileBuffer = true ->
  (format = lit "svg" /\ Cloudinary.isAnimatedSVG (decode fileBuffer) = true)
  \/ (format = lit "gif" /\ Cloudinary.isAnimatedGIF fileBuffer = true).
Proof.
  unfold Upload.detectAnimated. cbv zeta.
  destruct (strEq format (lit "svg")) eqn:Es.
  - apply strEq_iff in Es. now left.
  - destruct (strEq format (lit "gif")) eqn:Eg; [|discriminate].
    apply strEq_iff in Eg. now right.
Qed.

Section ConversionByURL.

Variable toLowerCase : jsstring -> jsstring.
Variable decode : Uint8Array -> jsstring.
Variable encode : jsstring -> list byte.
Variable digestSHA1 : list byte -> list byte.
Variable now : N.
Variables fetchSource fetchConverted :
  jsstring -> completion thrown Upload.FetchResponse.
Variable post : Upload.UploadRequest -> completion thrown Upload.FetchResponse.
Variable url : jsstring.
Variable env : Upload.Env.

Let answer : Upload.Response :=
  Upload.handleImageConversion toLowerCase decode encode digestSHA1 now
    fetchSource fetchConverted post url env.

Let format : jsstring := Upload.formatOf toLowerCase url.

Ltac run_conversion :=
  subst answer format; unfold Upload.handleImageConversion; cbv zeta.

Ltac step_conversion :=
  match goal with
  | |- context [Upload.bind ?c _] =>
      let E := fresh "E" in destruct c eqn:E; cbn [Upload.bind]
  | |- context [negb ?b] =>
      let E := fresh "E" in destruct b eqn:E; cbn [negb]
  end.

Lemma conversion_status_cors :
  (Upload.status answer = 200%N \/ Upload.status answer = 400%N
   \/ Upload.status answer = 500%N)
  /\ (In Upload.corsHeader (Upload.headers answer)
      <-> Upload.status answer = 200%N \/ Upload.status answer = 500%N).
Proof.
  run_conversion. repeat step_conversion;
    cbn [Upload.status Upload.body Upload.headers Upload.errorResponse In];
    (split;
     [auto
     |split; intros H;
      [try contradiction; auto
      |try (destruct H as [H|H]; discriminate H); auto]]).
Qed.

(** X15: the answer of a conversion by URL has status 200, 400 or 500 and
    no other.  The 200 and 500 answers allow every origin; the 400 answer
    is the plain text of the unsupported format, sent without any
    header. *)
Theorem conversion_statuses :
  (Upload.status answer = 200%N \/ Upload.status answer = 400%N
   \/ Upload.status answer = 500%N)
  /\ (Upload.status answer <> 400%N ->
      In Upload.corsHeader (Upload.headers answer))
  /\ (Upload.status answer = 400%N ->
      answer = {| Upload.status := 400;
                  Upload.body := Upload.BodyText (lit "Unsupported file format");
                  Upload.headers := [] |}).
Proof.
  run_conversion. repeat step_conversion;
    cbn [Upload.status Upload.body Upload.headers Upload.errorResponse];
    (split;
     [auto
     |split;
      [intros H; try (exfalso; apply H; reflexivity); cbn [In]; auto
      |intros H; try discriminate H; reflexivity]]).
Qed.

(** X16: when the first fetch answers with a status that is not ok, the
    answer is the 500 error carrying the message of the failed fetch,
    whatever the extension of the URL: the format is examined only after
    the download; a fetch that throws is reported likewise with its own
    message. *)
Theorem conversion_fetch_failure :
  (forall response,
      fetchSource url = Normal response -> Upload.ok response = false ->
      answer = Upload.errorResponse
                 (ThrownError (lit "Failed to fetch image from URL")))
  /\ (forall e, fetchSource url = Throw e -> answer = Upload.errorResponse e)
  /\ forall e, Upload.status (Upload.errorResponse e) = 500%N
               /\ Upload.body (Upload.errorResponse e)
                  = Upload.BodyErrorJSON
                      match e with
                      | ThrownError message => message
                      | ThrownOther => lit "Unknown error occurred"
                      end.
Proof.
  split; [|split].
  - intros response Hf Hok. run_conversion. rewrite Hf. cbn [Upload.bind].
    now rewrite Hok.
  - intros e Hf. run_conversion. now rewrite Hf.
  - intros e. split; reflexivity.
Qed.

(** X17: once the download has succeeded, a URL whose format is not
    supported is answered with status 400, and neither the upload nor the
    second fetch has any influence on the answer. *)
Theorem conversion_unsupported_format (response : Upload.FetchResponse)
  (fileBuffer : Uint8Array) :
  fetchSource url = Normal response -> Upload.ok response = true ->
  Upload.arrayBuffer response = Normal fileBuffer ->
  Upload.supported format = false ->
  answer = {| Upload.status := 400;
              Upload.body := Upload.BodyText (lit "Unsupported file format");
              Upload.headers := [] |}.
Proof.
  intros Hf Hok Hb Hs. run_conversion. rewrite Hf. cbn [Upload.bind].
  rewrite Hok. cbn [negb]. rewrite Hb. cbn [Upload.bind].
  now rewrite Hs.
Qed.

(** X18: when download and upload succeed, the answer has status 200 and
    carries the bytes fetched from the rewritten URL, with Content-Type
    video/mp4 for an animated input and image/png otherwise; the status of
    that second fetch is not examined, so its body is passed on even when
    it is an error page. *)
Theorem conversion_success (response converted : Upload.FetchResponse)
  (fileBuffer convertedBuffer : Uint8Array)
  (uploadResult : Upload.CloudinaryResponse) :
  fetchSource url = Normal response -> Upload.ok response = true ->
  Upload.arrayBuffer response = Normal fileBuffer ->
  Upload.supported format = true ->
  Upload.uploadToCloudinary encode digestSHA1 now post fileBuffer format
    (Upload.detectAnimated decode format fileBuffer) env = Normal uploadResult ->
  fetchConverted (Upload.secure_url uploadResult) = Normal converted ->
  Upload.arrayBuffer converted = Normal convertedBuffer ->
  Upload.status answer = 200%N
  /\ Upload.body answer = Upload.BodyBuffer convertedBuffer
  /\ headerValue (lit "Content-Type") (Upload.headers answer)
     = Some (if Upload.detectAnimated decode format fileBuffer
             then lit "video/mp4" else lit "image/png")
  /\ In Upload.corsHeader (Upload.headers answer).
Proof.
  intros Hf Hok Hb Hs Hu Hc Hcb. run_conversion. rewrite Hf.
  cbn [Upload.bind]. rewrite Hok. cbn [negb]. rewrite Hb. cbn [Upload.bind].
  rewrite Hs. cbn [negb]. rewrite Hu. cbn [Upload.bind]. rewrite Hc.
  cbn [Upload.bind]. rewrite Hcb. cbn [Upload.bind].
  cbn [Upload.status Upload.body Upload.headers].
  split; [reflexivity|]. split; [reflexivity|].
  split; [reflexivity|right; now left].
Qed.

(** X19: an answer announced as video/mp4 comes from a download that the
    classifiers found animated: an SVG text containing an animation tag,
    or a GIF that starts with its signature and holds at least two Graphic
    Control Extension markers after the header; in particular no payload
    served under a gif name without the GIF signature is ever announced as
    a video. *)
Theorem conversion_video_only_if_animated :
  Upload.status answer = 200%N ->
  headerValue (lit "Content-Type") (Upload.headers answer)
  = Some (lit "video/mp4") ->
  exists response fileBuffer,
    fetchSource url = Normal response
    /\ Upload.arrayBuffer response = Normal fileBuffer
    /\ ((format = lit "svg"
         /\ exists tag, In tag smilTags /\ Substring tag (decode fileBuffer))
        \/ (format = lit "gif" /\ hasSignature fileBuffer
            /\ (2 <= gceCount fileBuffer)%nat)).
Proof.
  run_conversion. repeat step_conversion;
    cbn [Upload.status Upload.errorResponse Upload.headers headerValue];
    try discriminate.
  intros _.
  match goal with
  | Hf : fetchSource url = Normal ?r, Hb : Upload.arrayBuffer ?r = Normal ?buf
    |- _ =>
      rename r into response; rename buf into fileBuffer
  end.
  destruct (Upload.detectAnimated decode (Upload.formatOf toLowerCase url)
              fileBuffer) eqn:Ed; cbn; [intros _|discriminate].
  exists response, fileBuffer. split; [reflexivity|]. split; [assumption|].
  destruct (detectAnimated_true decode _ _ Ed) as [[Hsvg Ha]|[Hgif Ha]].
  - left. split; [exact Hsvg|].
    assert (T : Ffmpeg.isAnimatedSVG (decode fileBuffer) = true).
    { unfold Ffmpeg.isAnimatedSVG, Cloudinary.isAnimatedSVG,
        Ffmpeg.animationElements, Cloudinary.animationElements in *.
      cbn [existsb] in *.
      destruct (includes (decode fileBuffer) (lit "<animate")),
        (includes (decode fileBuffer) (lit "<animateMotion")),
        (includes (decode fileBuffer) (lit "<animateTransform")),
        (includes (decode fileBuffer) (lit "<set")); try reflexivity;
        discriminate. }
    unfold Ffmpeg.isAnimatedSVG in T. apply existsb_exists in T.
    destruct T as (tag & Hin & Hinc). exists tag. split; [exact Hin|].
    now apply includes_iff.
  - right. split; [exact Hgif|].
    apply strict_true_iff in Ha.
    destruct Ha as (Hs & p1 & p2 & Hlt & Hr1 & Hm1 & _ & Hm2).
    split; [exact Hs|].
    exact (gceCount_two fileBuffer p1 p2 (Reach_le _ _ _ Hr1) Hlt Hm1 Hm2).
Qed.

End ConversionByURL.

Lemma conversion_fetch_failure_witness :
  Upload.handleImageConversion lowerASCII decodeASCII encodeASCII digestStandIn 0
    (fun _ => Normal (answerWith false [])) (fun _ => Throw ThrownOther)
    (fun _ => Throw ThrownOther) (lit "https://host/anim.gif") sampleEnv
  = Upload.errorResponse (ThrownError (lit "Failed to fetch image from URL")).
Proof.
  apply (proj1 (conversion_fetch_failure lowerASCII decodeASCII encodeASCII
                  digestStandIn 0 (fun _ => Normal (answerWith false []))
                  (fun _ => Throw ThrownOther) (fun _ => Throw ThrownOther)
                  (lit "https://host/anim.gif") sampleEnv)
           (answerWith false [])); reflexivity.
Defined.

Lemma conversion_unsupported_format_witness :
  Upload.handleImageConversion lowerASCII decodeASCII encodeASCII digestStandIn 0
    (fun _ => Normal (answerWith true [])) (fun _ => Throw ThrownOther)
    (fun _ => Throw ThrownOther) (lit "https://host/picture.png") sampleEnv
  = {| Upload.status := 400;
       Upload.body := Upload.BodyText (lit "Unsupported file format");
       Upload.headers := [] |}.
Proof.
  apply (conversion_unsupported_format lowerASCII decodeASCII encodeASCII
           digestStandIn 0 (fun _ => Normal (answerWith true []))
           (fun _ => Throw ThrownOther) (fun _ => Throw ThrownOther)
           (lit "https://host/picture.png") sampleEnv
           (answerWith true []) []); reflexivity.
Defined.

Lemma conversion_success_witness :
  let answer :=
    Upload.handleImageConversion lowerASCII decodeASCII encodeASCII
      digestStandIn 0
      (fun _ => Normal (answerWith true oneFrameGIF))
      (fun _ => Normal (answerWith false [x3c; x68; x31; x3e]))
      (fun _ => Normal (accepted (lit "https://res.host/up/abc.gif")))
      (lit "https://host/Logo.GIF") sampleEnv in
  Upload.status answer = 200%N
  /\ Upload.body answer = Upload.BodyBuffer [x3c; x68; x31; x3e]
  /\ headerValue (lit "Content-Type") (Upload.headers answer)
     = Some (lit "image/png")
  /\ In Upload.corsHeader (Upload.headers answer).
Proof.
  apply (conversion_success lowerASCII decodeASCII encodeASCII digestStandIn 0
           (fun _ => Normal (answerWith true oneFrameGIF))
           (fun _ => Normal (answerWith false [x3c; x68; x31; x3e]))
           (fun _ => Normal (accepted (lit "https://res.host/up/abc.gif")))
           (lit "https://host/Logo.GIF") sampleEnv
           (answerWith true oneFrameGIF)
           (answerWith false [x3c; x68; x31; x3e])
           oneFrameGIF [x3c; x68; x31; x3e]
           {| Upload.secure_url := lit "https://res.host/up/abc.png";
              Upload.format := lit "png";
              Upload.resource_type := lit "image" |});
    vm_compute; reflexivity.
Defined.

Lemma conversion_video_only_if_animated_witness :
  exists response fileBuffer,
    @Normal thrown _ (answerWith true blinkingGIF) = Normal response
    /\ Upload.arrayBuffer response = Normal fileBuffer
    /\ ((Upload.formatOf lowerASCII (lit "https://host/blink.gif") = lit "svg"
         /\ exists tag, In tag smilTags /\ Substring tag (decodeASCII fileBuffer))
        \/ (Upload.formatOf lowerASCII (lit "https://host/blink.gif") = lit "gif"
            /\ hasSignature fileBuffer /\ (2 <= gceCount fileBuffer)%nat)).
Proof.
  apply (conversion_video_only_if_animated lowerASCII decodeASCII encodeASCII
           digestStandIn 0
           (fun _ => Normal (answerWith true blinkingGIF))
           (fun _ => Normal (answerWith true []))
           (fun _ => Normal (accepted (lit "https://res.host/up/abc.gif")))
           (lit "https://host/blink.gif") sampleEnv);
    vm_compute; reflexivity.
Defined.

(** ** The exported handler *)

Section Handler.

Variable toLowerCase : jsstring -> jsstring.
Variable decode : Uint8Array -> jsstring.
Variable encode : jsstring -> list byte.
Variable digestSHA1 : list byte -> list byte.
Variable now : N.
Variables fetchSource fetchConverted fetchUrl :
  jsstring -> completion thrown Upload.FetchResponse.
Variable post : Upload.UploadRequest -> completion thrown Upload.FetchResponse.
Variable env : Upload.Env.

Let handle (request : Upload.Request) : Upload.Response :=
  Upload.fetch toLowerCase decode encode digestSHA1 now
    fetchSource fetchConverted fetchUrl post request env.

Ltac step_handler :=
  match goal with
  | |- context [Upload.bind ?c _] =>
      let E := fresh "E" in destruct c eqn:E; cbn [Upload.bind]
  | |- context [negb ?b] =>
      let E := fresh "E" in destruct b eqn:E; cbn [negb]
  | |- context [match Upload.urlEntry ?f with _ => _ end] =>
      let E := fresh "E" in destruct (Upload.urlEntry f) eqn:E
  | |- context [match Upload.fileEntry ?f with _ => _ end] =>
      let E := fresh "E" in destruct (Upload.fileEntry f) eqn:E
  end.

Ltac settle_status :=
  solve
    [cbn [Upload.status Upload.body Upload.headers Upload.errorResponse In];
     split;
     [auto 6
     |split; intros H;
      [try contradiction; auto
      |try (destruct H as [H|H]; discriminate H); auto]]].

Lemma handler_status_cors (request : Upload.Request) :
  (Upload.status (handle request) = 200%N
   \/ Upload.status (handle request) = 400%N
   \/ Upload.status (handle request) = 405%N
   \/ Upload.status (handle request) = 500%N)
  /\ (In Upload.corsHeader (Upload.headers (handle request))
      <-> Upload.status (handle request) = 200%N
          \/ Upload.status (handle request) = 500%N).
Proof.
  subst handle. cbv beta. unfold Upload.fetch.
  destruct (strEq (Upload.method request) (lit "OPTIONS")); [settle_status|].
  destruct (strEq (Upload.method request) (lit "GET")).
  - destruct (Upload.searchUrl request) as [[|c imageUrl]|];
      try settle_status.
    pose proof (conversion_status_cors toLowerCase decode encode digestSHA1 now
                  fetchSource fetchConverted post (c :: imageUrl) env)
      as [Hs Hc].
    split; [tauto|exact Hc].
  - destruct (strEq (Upload.method request) (lit "POST")); [|settle_status].
    cbv zeta. repeat step_handler; settle_status.
Qed.

(** X20: every answer of the handler has status 200, 400, 405 or 500; the
    status is 405 exactly when the method is none of OPTIONS, GET and POST,
    compared letter for letter; and the header that allows every origin is
    present exactly on the 200 and 500 answers, so the 400 and 405 answers
    are sent without it. *)
Theorem handler_statuses (request : Upload.Request) :
  (Upload.status (handle request) = 200%N
   \/ Upload.status (handle request) = 400%N
   \/ Upload.status (handle request) = 405%N
   \/ Upload.status (handle request) = 500%N)
  /\ (Upload.status (handle request) = 405%N
      <-> Upload.method request <> lit "OPTIONS"
          /\ Upload.method request <> lit "GET"
          /\ Upload.method request <> lit "POST")
  /\ (In Upload.corsHeader (Upload.headers (handle request))
      <-> Upload.status (handle request) = 200%N
          \/ Upload.status (handle request) = 500%N).
Proof.
  destruct (handler_status_cors request) as [Hs Hc].
  split; [exact Hs|]. split; [|exact Hc]. clear Hs Hc.
  subst handle. cbv beta. unfold Upload.fetch.
  destruct (strEq (Upload.method request) (lit "OPTIONS")) eqn:Eo.
  { apply strEq_iff in Eo. cbn [Upload.status].
    split; [discriminate|]. intros [H _]. contradiction. }
  destruct (strEq (Upload.method request) (lit "GET")) eqn:Eg.
  { apply strEq_iff in Eg.
    assert (N : forall r : Upload.Response,
               (Upload.status r = 200%N \/ Upload.status r = 400%N
                \/ Upload.status r = 500%N) ->
               (Upload.status r = 405%N
                <-> Upload.method request <> lit "OPTIONS"
                    /\ Upload.method request <> lit "GET"
                    /\ Upload.method request <> lit "POST")).
    { intros r Hr. split.
      - intros H. rewrite H in Hr. destruct Hr as [Hr|[Hr|Hr]]; discriminate.
      - intros (_ & H & _). contradiction. }
    destruct (Upload.searchUrl request) as [[|c imageUrl]|];
      try solve [apply N; cbn [Upload.status]; auto].
    apply N.
    exact (proj1 (conversion_status_cors toLowerCase decode encode digestSHA1
                    now fetchSource fetchConverted post (c :: imageUrl) env)). }
  destruct (strEq (Upload.method request) (lit "POST")) eqn:Ep.
  { apply strEq_iff in Ep. cbv zeta.
    repeat step_handler;
      cbn [Upload.status Upload.errorResponse];
      (split; [discriminate|intros (_ & _ & H); contradiction]). }
  cbn [Upload.status]. split; [intros _|reflexivity].
  repeat split; intros H; apply strEq_iff in H; congruence.
Qed.

(** X21: the answer to a POST.  Without a url entry and without a file
    entry it is the 400 answer asking for one of them.  A url entry takes
    precedence: with it, the file entry has no influence on the answer.  A
    200 answer reports format mp4 with resource type video, or png with
    image, and a URL that ends with a dot and that format, unless the
    stored URL had no extension to replace. *)
Theorem handler_post (form : Upload.RequestForm) (search : option jsstring) :
  let request (f : Upload.RequestForm) :=
    {| Upload.method := lit "POST";
       Upload.searchUrl := search;
       Upload.formData := Normal f |} in
  (Upload.urlEntry form = None -> Upload.fileEntry form = None ->
   handle (request form)
   = {| Upload.status := 400;
        Upload.body := Upload.BodyText (lit "No file or URL provided");
        Upload.headers := [] |})
  /\ (forall form' : Upload.RequestForm,
         Upload.urlEntry form <> None ->
         Upload.urlEntry form' = Upload.urlEntry form ->
         handle (request form') = handle (request form))
  /\ (Upload.status (handle (request form)) = 200%N ->
      exists url format resource_type,
        Upload.body (handle (request form))
        = Upload.BodyResultJSON url format resource_type
        /\ ((format = lit "mp4" /\ resource_type = lit "video")
            \/ (format = lit "png" /\ resource_type = lit "image"))
        /\ ((exists pre, url = pre ++ dot :: format)
            \/ (forall r, Upload.replaceExtension r url = url))).
Proof.
  intros request. subst request handle. cbv beta.
  split; [|split].
  - intros Hu Hf. unfold Upload.fetch. cbn. now rewrite Hu, Hf.
  - intros form' Hne Hu. unfold Upload.fetch. cbn. rewrite Hu.
    destruct (Upload.urlEntry form); [reflexivity|contradiction].
  - unfold Upload.fetch.
    cbn [Upload.method Upload.formData Upload.bind strEq lit List.map].
    change (strEq (lit "POST") (lit "OPTIONS")) with false.
    change (strEq (lit "POST") (lit "GET")) with false.
    change (strEq (lit "POST") (lit "POST")) with true.
    cbv iota zeta. cbn [Upload.bind].
    repeat step_handler;
      cbn [Upload.status Upload.body Upload.errorResponse];
      try discriminate; intros _;
      match goal with
      | Hup : Upload.uploadToCloudinary _ _ _ _ _ _ ?anim _ = Normal ?u |- _ =>
          destruct (upload_normal _ _ _ _ _ _ _ _ _ Hup)
            as (Hfmt & _ & _ & _ & stored & _ & _ & _ & Hurl);
          exists (Upload.secure_url u),
            (if anim then lit "mp4" else lit "png"),
            (if anim then lit "video" else lit "image");
          split; [reflexivity|];
          split; [destruct anim; auto|];
          rewrite Hurl, Hfmt;
          destruct (replaceExtension_cases (Upload.result_secure_url stored))
            as [(pre & ext & -> & He)|Hno];
          [left; exists pre; now rewrite (replaceExtension_match _ pre ext He)
          |right; intros r; now rewrite !Hno]
      end.
Qed.

End Handler.

Lemma handler_post_witness :
  Upload.fetch lowerASCII decodeASCII encodeASCII digestStandIn 0
    (fun _ => Throw ThrownOther) (fun _ => Throw ThrownOther)
    (fun _ => Normal (answerWith true oneFrameGIF))
    (fun _ => Normal (accepted (lit "https://res.host/up/abc.gif")))
    {| Upload.method := lit "POST";
       Upload.searchUrl := None;
       Upload.formData :=
         Normal {| Upload.urlEntry := Some (lit "https://host/one.gif");
                   Upload.fileEntry :=
                     Some {| Upload.fileName := lit "other.svg";
                             Upload.fileArrayBuffer := Throw ThrownOther |} |} |}
    sampleEnv
  = Upload.fetch lowerASCII decodeASCII encodeASCII digestStandIn 0
      (fun _ => Throw ThrownOther) (fun _ => Throw ThrownOther)
      (fun _ => Normal (answerWith true oneFrameGIF))
      (fun _ => Normal (accepted (lit "https://res.host/up/abc.gif")))
      {| Upload.method := lit "POST";
         Upload.searchUrl := None;
         Upload.formData :=
           Normal {| Upload.urlEntry := Some (lit "https://host/one.gif");
                     Upload.fileEntry := None |} |}
      sampleEnv.
Proof.
  apply (proj1 (proj2 (handler_post lowerASCII decodeASCII encodeASCII
           digestStandIn 0 (fun _ => Throw ThrownOther)
           (fun _ => Throw ThrownOther)
           (fun _ => Normal (answerWith true oneFrameGIF))
           (fun _ => Normal (accepted (lit "https://res.host/up/abc.gif")))
           sampleEnv
           {| Upload.urlEntry := Some (lit "https://host/one.gif");
              Upload.fileEntry := None |} None))).
  - discriminate.
  - reflexivity.
Defined.
